(** * Escape-profile similarity (mds_escape_profiles.ipynb)

    A shallow embedding of the numerical core of the notebook
    [mds_escape_profiles.ipynb]: the functions [escape_similarity] and
    [dissimilarity], and the part of the per-plot loop that calls them.
    Reading of files, plotting and the scaling solver are outside.

    Numbers.  The notebook computes with numpy [float64].  Here a float is
    an exact real number, or one of the IEEE special values that the code
    can produce and test for ([inf], [-inf], [nan]).  Rounding, overflow,
    underflow and the sign of zero are not modelled: a finite result is the
    exact real result.  Numpy's default error state is assumed (a division
    by zero or an invalid operation gives [inf] / [nan] and a warning, it
    does not raise).  Statements in which rounding or overflow could show
    carry a tolerance ([1e-9]) and a bound on the magnitudes ([in_range]).

    Tables.  A pandas data frame is the list of its rows in row order.
    [pivot_table] is modelled with its default arguments apart from those
    the code passes: groups are aggregated by their mean, groups whose mean
    is missing are dropped, rows are sorted by site, and absent
    combinations receive [fill_value].  The integer storage that pandas
    (before 2.1) gives a filled column whose entries all lie within 1e-8 of
    integers is not modelled; statements it could touch are about columns
    it leaves alone ([substantial], [keeps_values]).

    Exceptions.  A function that can raise returns a [result]; the loops
    stop at the first exception, in the order the code visits the pairs. *)

From Stdlib Require Import Reals Lra Lia List String ZArith Bool Arith Permutation.
Import ListNotations.

Open Scope R_scope.

(** ** Floats *)

Inductive float64 : Type :=
| Finite (r : R)
| Infinity (negative : bool)
| NaN.

Module Float.

Definition Reqb (a b : R) : bool := if Req_EM_T a b then true else false.
Definition Rltb (a b : R) : bool := if Rlt_dec a b then true else false.

Definition isnan (x : float64) : bool :=
  match x with NaN => true | _ => false end.

Definition isfinite (x : float64) : bool :=
  match x with Finite _ => true | _ => false end.

(** [x == y] on values; used for row equality in [drop_duplicates], where
    pandas takes two missing values to be equal. *)
Definition eqb (x y : float64) : bool :=
  match x, y with
  | Finite a, Finite b => Reqb a b
  | Infinity s, Infinity t => Bool.eqb s t
  | NaN, NaN => true
  | _, _ => false
  end.

Definition neg (x : float64) : float64 :=
  match x with
  | Finite a => Finite (- a)
  | Infinity s => Infinity (negb s)
  | NaN => NaN
  end.

Definition add (x y : float64) : float64 :=
  match x, y with
  | Finite a, Finite b => Finite (a + b)
  | Finite _, Infinity t => Infinity t
  | Infinity s, Finite _ => Infinity s
  | Infinity s, Infinity t => if Bool.eqb s t then Infinity s else NaN
  | _, _ => NaN
  end.

Definition sub (x y : float64) : float64 := add x (neg y).

Definition mul (x y : float64) : float64 :=
  match x, y with
  | Finite a, Finite b => Finite (a * b)
  | Finite a, Infinity t => if Reqb a 0 then NaN else Infinity (xorb (Rltb a 0) t)
  | Infinity s, Finite b => if Reqb b 0 then NaN else Infinity (xorb s (Rltb b 0))
  | Infinity s, Infinity t => Infinity (xorb s t)
  | _, _ => NaN
  end.

(** True division.  [0/0] is [nan]; a non-zero value over zero is an
    infinity of the sign of the numerator. *)
Definition div (x y : float64) : float64 :=
  match x, y with
  | Finite a, Finite b =>
      if Reqb b 0
      then (if Reqb a 0 then NaN else Infinity (Rltb a 0))
      else Finite (a / b)
  | Finite _, Infinity _ => Finite 0
  | Infinity s, Finite b => Infinity (xorb s (Rltb b 0))
  | Infinity _, Infinity _ => NaN
  | _, _ => NaN
  end.

(** [numpy.sqrt] *)
Definition sqrt (x : float64) : float64 :=
  match x with
  | Finite a => if Rltb a 0 then NaN else Finite (R_sqrt.sqrt a)
  | Infinity false => Infinity false
  | Infinity true => NaN
  | NaN => NaN
  end.

(** [numpy.log]: [-inf] at zero, [nan] below zero. *)
Definition log (x : float64) : float64 :=
  match x with
  | Finite a =>
      if Rltb 0 a then Finite (ln a)
      else if Reqb a 0 then Infinity true
      else NaN
  | Infinity false => Infinity false
  | Infinity true => NaN
  | NaN => NaN
  end.

(** [x ** p] for an integer exponent [p >= 0]. *)
Definition pow (x : float64) (p : nat) : float64 :=
  match p with
  | O => Finite 1
  | S _ =>
      match x with
      | Finite a => Finite (a ^ p)
      | Infinity s => Infinity (s && Nat.odd p)
      | NaN => NaN
      end
  end.

(** Sum of a sequence, accumulated from zero. *)
Definition sum (l : list float64) : float64 :=
  fold_left add l (Finite 0).

(** Mean of a non-empty group: sum over count. *)
Definition mean (l : list float64) : float64 :=
  div (sum l) (Finite (INR (List.length l))).

End Float.

(** ** Exceptions *)

Inductive exn : Type :=
| AssertionError
| KeyError
| ValueError (msg : string).

Inductive result (A : Type) : Type :=
| Ok (a : A)
| Raise (e : exn).

Arguments Ok {A} a.
Arguments Raise {A} e.

Definition bind {A B : Type} (m : result A) (k : A -> result B) : result B :=
  match m with
  | Ok a => k a
  | Raise e => Raise e
  end.

Notation "x <- m ;; k" := (bind m (fun x => k))
  (at level 61, m at next level, right associativity).

(** Run [f] over a list from left to right; the first exception stops the
    loop. *)
Fixpoint mapM {A B : Type} (f : A -> result B) (l : list A) : result (list B) :=
  match l with
  | [] => Ok []
  | a :: t => b <- f a ;; bs <- mapM f t ;; Ok (b :: bs)
  end.

(** ** Dissimilarity *)

Open Scope string_scope.

Definition dissimilarity (similarity : float64) (method : string) : result float64 :=
  if String.eqb method "one_minus" then
    Ok (Float.sub (Finite 1) similarity)
  else if String.eqb method "minus_log" then
    Ok (Float.neg (Float.log similarity))
  else
    Raise (ValueError ("invalid `method` " ++ method)).

Close Scope string_scope.

(** ** Data frames

    [escape_similarity] starts by projecting its argument on the three
    columns [condition], [site] and [site_metric]; a data frame is the list
    of these projected rows, in row order. *)

Record row : Type := mkRow {
  condition : string;
  site : Z;
  metric : float64
}.

Definition DataFrame : Type := list row.

Definition row_eqb (r1 r2 : row) : bool :=
  String.eqb (condition r1) (condition r2)
  && Z.eqb (site r1) (site r2)
  && Float.eqb (metric r1) (metric r2).

Section Unique.
Context {A : Type} (eqb : A -> A -> bool).

(** Distinct elements in order of first appearance
    ([Series.unique], [drop_duplicates(keep='first')]). *)
Fixpoint unique (l : list A) : list A :=
  match l with
  | [] => []
  | a :: t => a :: filter (fun b => negb (eqb a b)) (unique t)
  end.

(** Position of the first element equal to [a]. *)
Fixpoint index_of (a : A) (l : list A) : option nat :=
  match l with
  | [] => None
  | b :: t => if eqb b a then Some O else option_map S (index_of a t)
  end.

End Unique.

Definition drop_duplicates (df : DataFrame) : DataFrame := unique row_eqb df.

(** [df.isnull().any().any()]: the typed columns [condition] and [site]
    hold no missing value, so this looks at the metric only. *)
Definition isnull_any (df : DataFrame) : bool :=
  existsb (fun r => Float.isnan (metric r)) df.

(** [.assign(metric=lambda x: x[site_metric]**p)] *)
Definition assign_metric (p : nat) (df : DataFrame) : DataFrame :=
  map (fun r => mkRow (condition r) (site r) (Float.pow (metric r) p)) df.

(** *** [pivot_table] *)

Fixpoint insert_sorted (z : Z) (l : list Z) : list Z :=
  match l with
  | [] => [z]
  | y :: t => if Z.leb z y then z :: l else y :: insert_sorted z t
  end.

Definition sort (l : list Z) : list Z := fold_right insert_sorted [] l.

Definition key : Type := (Z * string)%type.

Definition key_eqb (k1 k2 : key) : bool :=
  Z.eqb (fst k1) (fst k2) && String.eqb (snd k1) (snd k2).

Definition row_key (r : row) : key := (site r, condition r).

(** The metric values of the rows of one (site, condition) group. *)
Definition group (df : DataFrame) (k : key) : list float64 :=
  map metric (filter (fun r => key_eqb (row_key r) k) df).

(** [groupby([site, condition]).agg('mean')] *)
Definition agg_mean (df : DataFrame) : list (key * float64) :=
  map (fun k => (k, Float.mean (group df k))) (unique key_eqb (map row_key df)).

(** [dropna(how='all')] on the aggregated groups. *)
Definition dropna (agged : list (key * float64)) : list (key * float64) :=
  filter (fun kv => negb (Float.isnan (snd kv))) agged.

Definition lookup (k : key) (agged : list (key * float64)) : option float64 :=
  option_map snd (find (fun kv => key_eqb (fst kv) k) agged).

Record PivotTable : Type := mkPivot {
  index : list Z;
  columns : list (string * list float64)
}.

(** One cell of the pivoted table: the mean of its group, or [fill_value]
    where the (site, condition) combination has no group. *)
Definition cell (agged : list (key * float64)) (fill_value : float64)
           (c : string) (s : Z) : float64 :=
  match lookup (s, c) agged with
  | Some v => v
  | None => fill_value
  end.

(** [pivot_table(index='site', columns='condition', values='metric',
    fill_value=...)] with the default aggregation (mean): one row per site
    (sorted), one column per condition, the mean of each group, and
    [fill_value] where a (site, condition) combination has no group.
    Columns are only ever accessed by label, so their order is left as the
    order of first appearance. *)
Definition pivot_table (df : DataFrame) (fill_value : float64) : PivotTable :=
  let agged := dropna (agg_mean df) in
  let sites := sort (unique Z.eqb (map (fun kv => fst (fst kv)) agged)) in
  let conds := unique String.eqb (map (fun kv => snd (fst kv)) agged) in
  mkPivot sites (map (fun c => (c, map (cell agged fill_value c) sites)) conds).

(** Column selection by label. *)
Definition get_column (tbl : PivotTable) (c : string) : result (list float64) :=
  match find (fun cx => String.eqb (fst cx) c) (columns tbl) with
  | Some cx => Ok (snd cx)
  | None => Raise KeyError
  end.

(** *** Normalisation and similarity *)

(** [numpy.linalg.norm(x, axis=0)] on one column. *)
Definition norm (x : list float64) : float64 :=
  Float.sqrt (Float.sum (map (fun v => Float.mul v v) x)).

(** [lambda x: x / numpy.linalg.norm(x, axis=0)] *)
Definition normalize (x : list float64) : list float64 :=
  map (fun v => Float.div v (norm x)) x.

(** [x[cond1] * x[cond2]], row by row. *)
Definition mul_columns (x1 x2 : list float64) : list float64 :=
  map (fun ab => Float.mul (fst ab) (snd ab)) (combine x1 x2).

(** The [similarity] column built in the loop body for one pair. *)
Definition similarity_series (df : DataFrame) (p : nat) (cond1 cond2 : string)
  : result (list float64) :=
  let tbl := pivot_table (assign_metric p df) (Finite 0) in
  x1 <- get_column tbl cond1 ;;
  x2 <- get_column tbl cond2 ;;
  Ok (mul_columns (normalize x1) (normalize x2)).

(** The loop body for one pair: the series, the assertion that it holds
    no null, and its sum. *)
Definition pair_similarity (df : DataFrame) (p : nat) (cond1 cond2 : string)
  : result float64 :=
  similarity <- similarity_series df p cond1 cond2 ;;
  if forallb (fun v => negb (Float.isnan v)) similarity
  then Ok (Float.sum similarity)
  else Raise AssertionError.

(** A square data frame: [labels] index both axes, [data] holds the
    entries row by row (the reshaped array). *)
Record Matrix : Type := mkMatrix {
  labels : list string;
  data : list float64
}.

Definition iloc (m : Matrix) (i j : nat) : option float64 :=
  if Nat.ltb j (List.length (labels m))
  then nth_error (data m) (i * List.length (labels m) + j)
  else None.

(** [m.loc[c1, c2]] *)
Definition loc (m : Matrix) (c1 c2 : string) : option float64 :=
  match index_of String.eqb c1 (labels m), index_of String.eqb c2 (labels m) with
  | Some i, Some j => iloc m i j
  | _, _ => None
  end.

Definition escape_similarity (df : DataFrame) (p : nat) : result Matrix :=
  let df := drop_duplicates df in
  if isnull_any df then Raise AssertionError else
  let conditions := unique String.eqb (map condition df) in
  similarities <-
    mapM (fun cc => pair_similarity df p (fst cc) (snd cc))
         (list_prod conditions conditions) ;;
  Ok (mkMatrix conditions similarities).

(** ** The per-plot loop

    The body of [for name, specs in mds_config.items()] up to the
    dissimilarity matrix.  [conds] is [specs['conditions']], a dictionary
    from condition to display name, as its list of items. *)

Definition dict : Type := list (string * string).

Definition keys (d : dict) : list string := map fst d.
Definition values (d : dict) : list string := map snd d.

Definition dict_get (d : dict) (k : string) : option string :=
  option_map snd (find (fun kv => String.eqb (fst kv) k) d).

Definition isin (c : string) (l : list string) : bool :=
  existsb (String.eqb c) l.

(** [.query('condition in @conditions_to_plot')] *)
Definition query_isin (conditions_to_plot : list string) (df : DataFrame) : DataFrame :=
  filter (fun r => isin (condition r) conditions_to_plot) df.

(** [.assign(condition=lambda x: x['condition'].map(conds))]; every row left
    by [query_isin] has its condition among the keys. *)
Definition rename_conditions (conds : dict) (df : DataFrame) : DataFrame :=
  map (fun r => mkRow (match dict_get conds (condition r) with
                       | Some name => name
                       | None => condition r
                       end) (site r) (metric r)) df.

(** [similarities.applymap(f)]; every failure of [f] here is the same
    exception, so the order of the cells does not show. *)
Definition applymap (f : float64 -> result float64) (m : Matrix) : result Matrix :=
  d <- mapM f (data m) ;;
  Ok (mkMatrix (labels m) d).

Definition dissimilarity_method : string := "one_minus".

(** [assert cond] *)
Definition assert (cond : bool) : result unit :=
  if cond then Ok tt else Raise AssertionError.

(** The data frame of one plot: the rows of the wanted conditions, under
    their display names. *)
Definition plot_table (escape_fracs : DataFrame) (conds : dict) : DataFrame :=
  rename_conditions conds (query_isin (keys conds) escape_fracs).

Definition mds_matrices (escape_fracs : DataFrame) (conds : dict) (method : string)
  : result (Matrix * Matrix) :=
  let conditions_to_plot := keys conds in
  _ <- assert (Nat.eqb (List.length conditions_to_plot)
                       (List.length (unique String.eqb (values conds)))) ;;
  _ <- assert (forallb (fun c => isin c (map condition escape_fracs))
                       conditions_to_plot) ;;
  let df := plot_table escape_fracs conds in
  similarities <- escape_similarity df 1 ;;
  dissimilarities <- applymap (fun x => dissimilarity x method) similarities ;;
  Ok (similarities, dissimilarities).

(** ** Vocabulary of the statements *)

(** Every metric value of the table is a finite number. *)
Definition all_finite (df : DataFrame) : Prop :=
  Forall (fun r => Float.isfinite (metric r) = true) df.

(** The conditions of a table, as [escape_similarity] lists them. *)
Definition conditions_of (df : DataFrame) : list string :=
  unique String.eqb (map condition df).

(** The escape profile of a condition: its column of the pivot table,
    over all sites, before normalisation. *)
Definition profile (df : DataFrame) (p : nat) (c : string) : result (list float64) :=
  get_column (pivot_table (assign_metric p df) (Finite 0)) c.

(** The site universe of the comparison: the row labels of the pivot table. *)
Definition site_universe (df : DataFrame) (p : nat) : list Z :=
  index (pivot_table (assign_metric p df) (Finite 0)).

(** [x] is a finite number within [tol] of [y]. *)
Definition isclose (x : float64) (y tol : R) : Prop :=
  match x with
  | Finite a => Rabs (a - y) <= tol
  | _ => False
  end.

Definition Rsum (l : list R) : R := fold_right Rplus 0 l.

Definition dot (a b : list R) : R :=
  Rsum (map (fun ab => fst ab * snd ab) (combine a b)).

Definition to_R (x : float64) : R :=
  match x with Finite a => a | _ => 0 end.

(** The normalised dot product of two real vectors. *)
Definition cosine (a b : list R) : R :=
  dot a b / (sqrt (dot a a) * sqrt (dot b b)).


(** Every metric value of the table is a finite number that is not
    negative. *)
Definition nonnegative (df : DataFrame) : Prop :=
  Forall (fun r => exists v, metric r = Finite v /\ 0 <= v) df.

(** The table in which every metric value of condition [c] is multiplied
    by [k]. *)
Definition rescale (c : string) (k : R) (df : DataFrame) : DataFrame :=
  map (fun r => if String.eqb (condition r) c
                then mkRow (condition r) (site r) (Float.mul (Finite k) (metric r))
                else r) df.

(** The metric values are not negative and, raised to the power [p], at
    most 1e100: magnitudes whose squares, products and sums float64 holds
    without overflow, and whose group means lose nothing by cancellation. *)
Definition in_range (p : nat) (df : DataFrame) : Prop :=
  Forall (fun r => exists v, metric r = Finite v /\ 0 <= v /\ v ^ p <= 1e100) df.

(** The column has an entry of at least 1e-7.  (The pandas versions that
    fill a pivot table with [downcast='infer'] store a column whose entries
    all lie within 1e-8 of integers as these integers: a column of entries
    below 1e-8 becomes a column of zeros.) *)
Definition substantial (x : list float64) : Prop :=
  Exists (fun v => 1e-7 <= to_R v) x.

(** The column holds the same values whether or not the pivot table
    stores it as integers: an entry is farther than 1e-7 from every
    integer, or every entry is an integer. *)
Definition keeps_values (x : list float64) : Prop :=
  Exists (fun v => forall z : Z, 1e-7 < Rabs (to_R v - IZR z)) x
  \/ Forall (fun v => exists z : Z, v = Finite (IZR z)) x.


(** Whether the table has a row for the (site, condition) pair [k]. *)
Definition has_key (k : key) (df : DataFrame) : bool :=
  existsb (fun k' => key_eqb k' k) (map row_key df).

(** ** Pie markers

    [draw_pie] up to the calls of the plotting library: the wedges it
    draws for one point, each from the fraction [r1] to the fraction [r2]
    of the full circle in one colour.  It indexes an array, so its
    exceptions are a type of their own. *)

Module Pie.

Inductive error : Type :=
| IndexError
| AssertionError.

Inductive outcome (A : Type) : Type :=
| Drawn (a : A)
| Raised (e : error).

Arguments Drawn {A} a.
Arguments Raised {A} e.

Definition wedge : Type := (float64 * float64 * string)%type.

Definition r1 (w : wedge) : float64 := fst (fst w).
Definition r2 (w : wedge) : float64 := snd (fst w).
Definition color (w : wedge) : string := snd w.

(** The running sums after the first element. *)
Fixpoint cumsum_from (acc : float64) (l : list float64) : list float64 :=
  match l with
  | [] => []
  | x :: t => Float.add acc x :: cumsum_from (Float.add acc x) t
  end.

(** [numpy.cumsum] *)
Definition cumsum (l : list float64) : list float64 :=
  match l with
  | [] => []
  | x :: t => x :: cumsum_from x t
  end.

(** [a[-1]] *)
Fixpoint last_item (l : list float64) : outcome float64 :=
  match l with
  | [] => Raised IndexError
  | [x] => Drawn x
  | _ :: t => last_item t
  end.

Definition draw_pie (dist : list float64) (colors : list string)
  : outcome (list wedge) :=
  match last_item (cumsum dist) with
  | Raised e => Raised e
  | Drawn total =>
      let cumsum := map (fun x => Float.div x total) (cumsum dist) in
      let pie := Finite 0 :: cumsum in
      if Nat.eqb (List.length colors) (List.length dist)
      then Drawn (combine (combine (removelast pie) (tl pie)) colors)
      else Raised AssertionError
  end.

(** The width of a wedge, as a fraction of the circle. *)
Definition width (w : wedge) : R := to_R (r2 w) - to_R (r1 w).

(** [chain a ws b]: the wedges [ws] have finite bounds, the first starts
    at [a], each starts where the one before ends, and the last ends at
    [b]. *)
Inductive chain : R -> list wedge -> R -> Prop :=
| chain_nil (a : R) : chain a [] a
| chain_cons (a m b : R) (c : string) (ws : list wedge) :
    chain m ws b -> chain a ((Finite a, Finite m, c) :: ws) b.

End Pie.

(** The running sums of a list of reals, starting from [acc]. *)
Fixpoint prefix_sums (acc : R) (d : list R) : list R :=
  match d with
  | [] => []
  | x :: t => (acc + x) :: prefix_sums (acc + x) t
  end.

(** The wedges for the values [d] over the total [total], the first one
    starting at [acc / total]. *)
Fixpoint wedges_from (acc total : R) (d : list R) (colors : list string)
  : list Pie.wedge :=
  match d, colors with
  | x :: d', c :: cs =>
      (Finite (acc / total), Finite ((acc + x) / total), c)
        :: wedges_from (acc + x) total d' cs
  | _, _ => []
  end.

(** ** Custom analyses (the R document that follows the notebook)

    The data-table steps of the chunks [mutation_escape_v_freq],
    [define_structural_contacts] and [plot_total_escape_contacts] that do
    not call the structure or plotting libraries.  A data table is the
    list of its rows; only the columns these steps read or write are kept.
    Numeric columns read from the input files hold finite numbers. *)

Module Custom.

(** A row of [scores]. *)
Record score : Type := mkScore {
  antibody : string;
  protein_site : Z;
  mutation : string;
  count : R;
  n_countries : R;
  frequency : R
}.

(** A row of [counts], the table of mutant frequencies. *)
Record gisaid : Type := mkGisaid {
  g_site : Z;
  g_mutant : string;
  g_count : R;
  g_n_countries : R;
  g_frequency : R
}.

(** [scores[,count:=0]; scores[,n_countries:=0]; scores[,frequency:=0]] *)
Definition reset_counts (s : score) : score :=
  mkScore (antibody s) (protein_site s) (mutation s) 0 0 0.

(** [protein_site==counts[i,"site"] & mutation==counts[i,"mutant"]] *)
Definition matches (g : gisaid) (s : score) : bool :=
  Z.eqb (protein_site s) (g_site g) && String.eqb (mutation s) (g_mutant g).

(** The body of the loop for row [g] of [counts], on one row of
    [scores]: the three assignments share their row selection. *)
Definition assign_counts (g : gisaid) (s : score) : score :=
  if matches g s
  then mkScore (antibody s) (protein_site s) (mutation s)
               (g_count g) (g_n_countries g) (g_frequency g)
  else s.

(** The loop [for(i in 1:nrow(counts))] over a table [counts] that has
    at least the row [g0]. *)
Definition add_counts (g0 : gisaid) (rest : list gisaid) (scores : list score)
  : list score :=
  fold_left (fun sc g => map (assign_counts g) sc) (g0 :: rest)
            (map reset_counts scores).

(** [min] of a numeric vector; [Inf] when it is empty. *)
Definition rmin (l : list R) : float64 :=
  match l with
  | [] => Infinity false
  | x :: t => Finite (fold_left Rmin t x)
  end.

(** [min(scores[frequency>0,frequency])] *)
Definition min_positive (scores : list score) : float64 :=
  rmin (map frequency (filter (fun s => Float.Rltb 0 (frequency s)) scores)).

(** The column [pseudo_frequency]: [frequency], and a tenth of the least
    positive frequency on the rows where [frequency==0]. *)
Definition pseudo_frequency (scores : list score) : list float64 :=
  map (fun s => if Float.Reqb (frequency s) 0
                then Float.mul (Finite (1 / 10)) (min_positive scores)
                else Finite (frequency s))
      scores.

(** [z %in% l] *)
Definition zin (z : Z) (l : list Z) : bool := existsb (Z.eqb z) l.

(** [x[!(x %in% y)]] *)
Definition not_in (y x : list Z) : list Z := filter (fun z => negb (zin z y)) x.

(** The levels of the factor [contact]. *)
Inductive contact : Type :=
| Contact
| Proximal
| Distal.

Section Contacts.

(** The residue numbers returned by [binding.site] with cutoff 4 and
    with cutoff 8, for the two structures. *)
Variables (LY016_4A LY016_8A LY555_4A LY555_8A : list Z).

Definition contacts_LY016_4to8A : list Z := not_in LY016_4A LY016_8A.
Definition contacts_LY555_4to8A : list Z := not_in LY555_4A LY555_8A.

(** The column [contact] of a row of [temp], after the five assignments
    in the order of the code. *)
Definition classify (ab : string) (ps : Z) : contact :=
  let v := Distal in
  let v := if String.eqb ab "LY-CoV016" && zin ps LY016_4A then Contact else v in
  let v := if String.eqb ab "LY-CoV016" && zin ps contacts_LY016_4to8A
           then Proximal else v in
  let v := if String.eqb ab "LY-CoV555" && zin ps LY555_4A then Contact else v in
  let v := if String.eqb ab "LY-CoV555" && zin ps contacts_LY555_4to8A
           then Proximal else v in
  v.

End Contacts.

(** The last row of [counts] that selects the row [s] of [scores]. *)
Definition last_match (counts : list gisaid) (s : score) : option gisaid :=
  find (fun g => matches g s) (rev counts).

End Custom.

(** ** Example tables *)

Open Scope string_scope.

(** [{(A,1):1.0, (A,2):1.0, (B,1):1.0, (B,2):0.0}] *)
Definition table_end_to_end : DataFrame :=
  [ mkRow "A" 1 (Finite 1); mkRow "A" 2 (Finite 1);
    mkRow "B" 1 (Finite 1); mkRow "B" 2 (Finite 0) ].

(** A observed only at site 1 (2.0), B only at site 2 (3.0). *)
Definition table_disjoint : DataFrame :=
  [ mkRow "A" 1 (Finite 2); mkRow "B" 2 (Finite 3) ].

(** Profiles [0.9, 0.1] and [0.1, 0.9] over sites 1 and 2. *)
Definition table_emphasis : DataFrame :=
  [ mkRow "A" 1 (Finite (9/10)); mkRow "A" 2 (Finite (1/10));
    mkRow "B" 1 (Finite (1/10)); mkRow "B" 2 (Finite (9/10)) ].

(** Condition A has an all-zero profile. *)
Definition table_zero : DataFrame :=
  [ mkRow "A" 1 (Finite 0); mkRow "B" 1 (Finite 1) ].



(** The similarity of A and B in [table_emphasis] as a function of the
    exponent. *)
Definition emphasis_similarity (p : nat) : R :=
  cosine [(9/10) ^ p; (1/10) ^ p] [(1/10) ^ p; (9/10) ^ p].

Close Scope string_scope.

(** ** Properties of the float operations *)

Lemma Reqb_true (a b : R) : a = b -> Float.Reqb a b = true.
Proof. intros H. unfold Float.Reqb. destruct (Req_EM_T a b); congruence. Qed.

Lemma Reqb_false (a b : R) : a <> b -> Float.Reqb a b = false.
Proof. intros H. unfold Float.Reqb. destruct (Req_EM_T a b); congruence. Qed.

Lemma Rltb_true (a b : R) : a < b -> Float.Rltb a b = true.
Proof. intros H. unfold Float.Rltb. destruct (Rlt_dec a b); tauto. Qed.

Lemma Rltb_false (a b : R) : ~ a < b -> Float.Rltb a b = false.
Proof. intros H. unfold Float.Rltb. destruct (Rlt_dec a b); tauto. Qed.

Lemma float_eqb_eq (x y : float64) : Float.eqb x y = true <-> x = y.
Proof.
  destruct x as [a|s|], y as [b|t|]; simpl; split; intros H;
    try discriminate; try reflexivity.
  - unfold Float.Reqb in H. destruct (Req_EM_T a b); [subst; reflexivity|discriminate].
  - inversion H. apply Reqb_true. reflexivity.
  - apply Bool.eqb_prop in H. subst. reflexivity.
  - inversion H. apply Bool.eqb_reflx.
Qed.

Lemma mul_comm (x y : float64) : Float.mul x y = Float.mul y x.
Proof.
  destruct x as [a|s|], y as [b|t|]; simpl; try reflexivity.
  - f_equal. apply Rmult_comm.
  - rewrite xorb_comm. reflexivity.
  - rewrite xorb_comm. reflexivity.
  - rewrite xorb_comm. reflexivity.
Qed.

Lemma fold_add_finite (l : list R) (a : R) :
  fold_left Float.add (map Finite l) (Finite a) = Finite (a + Rsum l).
Proof.
  revert a. induction l as [|x l IH]; intros a; simpl.
  - f_equal. lra.
  - rewrite IH. f_equal. lra.
Qed.

Lemma sum_finite (l : list R) : Float.sum (map Finite l) = Finite (Rsum l).
Proof. unfold Float.sum. rewrite fold_add_finite. f_equal. lra. Qed.

Lemma finite_list (x : list float64) :
  Forall (fun v => Float.isfinite v = true) x -> x = map Finite (map to_R x).
Proof.
  induction 1 as [|v x Hv _ IH]; simpl.
  - reflexivity.
  - destruct v; try discriminate. simpl. f_equal. exact IH.
Qed.

Lemma Rsum_squares_nonneg (a : list R) : 0 <= Rsum (map (fun x => x * x) a).
Proof. induction a as [|x a IH]; simpl; [lra | nra]. Qed.

Lemma Rsum_squares_zero (a : list R) :
  Rsum (map (fun x => x * x) a) = 0 -> Forall (fun x => x = 0) a.
Proof.
  induction a as [|x a IH]; simpl; intros H.
  - constructor.
  - pose proof (Rsum_squares_nonneg a) as Hn.
    constructor; [nra | apply IH; nra].
Qed.

Lemma dot_self (a : list R) : dot a a = Rsum (map (fun x => x * x) a).
Proof. unfold dot. induction a as [|x a IH]; simpl; [reflexivity | rewrite IH; reflexivity]. Qed.

Lemma dot_scale (a b : list R) (k l : R) :
  k <> 0 -> l <> 0 ->
  dot (map (fun x => x / k) a) (map (fun x => x / l) b) = dot a b / (k * l).
Proof.
  intros Hk Hl. unfold dot. revert b.
  induction a as [|x a IH]; intros [|y b]; simpl; try (field; split; assumption).
  rewrite IH. field. split; assumption.
Qed.

(** ** Norm, normalisation and product of finite columns *)

Lemma squares_finite (a : list R) :
  map (fun v => Float.mul v v) (map Finite a) = map Finite (map (fun x => x * x) a).
Proof. rewrite !map_map. reflexivity. Qed.

Lemma norm_finite (a : list R) :
  norm (map Finite a) = Finite (sqrt (dot a a)).
Proof.
  unfold norm. rewrite squares_finite, sum_finite, dot_self. simpl.
  rewrite Rltb_false; [reflexivity|].
  pose proof (Rsum_squares_nonneg a). lra.
Qed.

Lemma sqrt_dot_zero (a : list R) : sqrt (dot a a) = 0 <-> dot a a = 0.
Proof.
  rewrite dot_self. pose proof (Rsum_squares_nonneg a) as Hn. split; intros H.
  - apply sqrt_eq_0; assumption.
  - rewrite H. apply sqrt_0.
Qed.

Lemma normalize_finite (a : list R) :
  dot a a <> 0 ->
  normalize (map Finite a) = map Finite (map (fun x => x / sqrt (dot a a)) a).
Proof.
  intros Hn. unfold normalize. rewrite norm_finite, !map_map.
  apply map_ext. intros x. simpl.
  rewrite Reqb_false; [reflexivity|].
  intros H. apply Hn. apply sqrt_dot_zero. exact H.
Qed.

Lemma normalize_zero (a : list R) :
  dot a a = 0 ->
  normalize (map Finite a) = map (fun _ => NaN) a.
Proof.
  intros Hz. unfold normalize. rewrite norm_finite, map_map.
  assert (Hs : sqrt (dot a a) = 0) by (apply sqrt_dot_zero; exact Hz).
  rewrite Hs. rewrite dot_self in Hz. apply Rsum_squares_zero in Hz.
  apply map_ext_in. intros x Hx. rewrite Forall_forall in Hz.
  rewrite (Hz x Hx). simpl. rewrite !Reqb_true; reflexivity.
Qed.

Lemma mul_columns_finite (a b : list R) :
  mul_columns (map Finite a) (map Finite b)
  = map Finite (map (fun ab => fst ab * snd ab) (combine a b)).
Proof.
  unfold mul_columns. revert b.
  induction a as [|x a IH]; intros [|y b]; simpl; try reflexivity.
  rewrite IH. reflexivity.
Qed.

Lemma mul_columns_comm (x y : list float64) : mul_columns x y = mul_columns y x.
Proof.
  unfold mul_columns. revert y.
  induction x as [|a x IH]; intros [|b y]; simpl; try reflexivity.
  rewrite IH, mul_comm. reflexivity.
Qed.

Lemma mul_columns_nan {A : Type} (a : list A) (y : list float64) :
  mul_columns (map (fun _ => NaN) a) y = map (fun _ => NaN) (combine a y).
Proof.
  unfold mul_columns. revert y.
  induction a as [|x a IH]; intros [|b y]; simpl; try reflexivity.
  rewrite IH. reflexivity.
Qed.

Lemma notnull_finite (l : list R) :
  forallb (fun v => negb (Float.isnan v)) (map Finite l) = true.
Proof. induction l; simpl; auto. Qed.

Lemma notnull_nan {A : Type} (l : list A) :
  l <> [] -> forallb (fun v => negb (Float.isnan v)) (map (fun _ => NaN) l) = false.
Proof. destruct l; [congruence | reflexivity]. Qed.

(** ** The loop body on given profiles *)

Lemma pair_similarity_unfold (df : DataFrame) (p : nat) (c1 c2 : string) :
  pair_similarity df p c1 c2 =
  (x1 <- profile df p c1 ;;
   x2 <- profile df p c2 ;;
   let similarity := mul_columns (normalize x1) (normalize x2) in
   if forallb (fun v => negb (Float.isnan v)) similarity
   then Ok (Float.sum similarity) else Raise AssertionError).
Proof.
  unfold pair_similarity, similarity_series, profile.
  destruct (get_column _ c1); simpl; [|reflexivity].
  destruct (get_column _ c2); reflexivity.
Qed.

Lemma profile_error (df : DataFrame) (p : nat) (c : string) (e : exn) :
  profile df p c = Raise e -> e = KeyError.
Proof.
  unfold profile, get_column. destruct (find _ _); congruence.
Qed.

Lemma pair_similarity_comm (df : DataFrame) (p : nat) (c1 c2 : string) :
  pair_similarity df p c1 c2 = pair_similarity df p c2 c1.
Proof.
  rewrite !pair_similarity_unfold.
  destruct (profile df p c1) as [x1|e1] eqn:H1;
    destruct (profile df p c2) as [x2|e2] eqn:H2; simpl; try reflexivity.
  - rewrite mul_columns_comm. reflexivity.
  - apply profile_error in H1, H2. subst. reflexivity.
Qed.

Lemma pair_similarity_finite (df : DataFrame) (p : nat) (c1 c2 : string) (a b : list R) :
  profile df p c1 = Ok (map Finite a) ->
  profile df p c2 = Ok (map Finite b) ->
  dot a a <> 0 -> dot b b <> 0 ->
  pair_similarity df p c1 c2
  = Ok (Finite (dot a b / (sqrt (dot a a) * sqrt (dot b b)))).
Proof.
  intros H1 H2 Ha Hb. rewrite pair_similarity_unfold, H1, H2. simpl.
  rewrite !normalize_finite by assumption.
  rewrite mul_columns_finite, notnull_finite, sum_finite.
  f_equal. f_equal. apply dot_scale.
  - intros H. apply Ha. apply sqrt_dot_zero. exact H.
  - intros H. apply Hb. apply sqrt_dot_zero. exact H.
Qed.

Lemma pair_similarity_zero_norm (df : DataFrame) (p : nat) (c1 c2 : string)
      (a : list R) (x2 : list float64) :
  profile df p c1 = Ok (map Finite a) ->
  profile df p c2 = Ok x2 ->
  dot a a = 0 -> a <> [] -> x2 <> [] ->
  pair_similarity df p c1 c2 = Raise AssertionError.
Proof.
  intros H1 H2 Ha Hne1 Hne2. rewrite pair_similarity_unfold, H1, H2. simpl.
  rewrite normalize_zero by assumption.
  rewrite mul_columns_nan, notnull_nan; [reflexivity|].
  destruct a; [congruence|]. unfold normalize. destruct x2; [congruence|]. discriminate.
Qed.

Lemma pair_similarity_self (df : DataFrame) (p : nat) (c : string) (a : list R) :
  profile df p c = Ok (map Finite a) ->
  dot a a <> 0 ->
  pair_similarity df p c c = Ok (Finite 1).
Proof.
  intros H Ha. rewrite (pair_similarity_finite df p c c a a H H Ha Ha).
  f_equal. f_equal. rewrite sqrt_sqrt.
  - field. exact Ha.
  - rewrite dot_self. apply Rsum_squares_nonneg.
Qed.

(** ** Lists: [unique], [sort], [index_of], [mapM], [list_prod] *)

Section UniqueFacts.
Context {A : Type} (eqb : A -> A -> bool).
Hypothesis eqb_spec : forall a b, eqb a b = true <-> a = b.

Lemma eqb_refl_of_spec (a : A) : eqb a a = true.
Proof. apply eqb_spec. reflexivity. Qed.

Lemma In_unique (a : A) (l : list A) : In a (unique eqb l) <-> In a l.
Proof.
  induction l as [|x l IH]; simpl; [tauto|].
  rewrite filter_In, IH. split.
  - intros [H|[H _]]; auto.
  - intros [H|H]; [auto|].
    destruct (eqb x a) eqn:E.
    + left. apply eqb_spec. exact E.
    + right. split; [exact H | reflexivity].
Qed.

Lemma index_of_nth (a : A) (l : list A) (i : nat) :
  index_of eqb a l = Some i -> nth_error l i = Some a.
Proof.
  revert i. induction l as [|x l IH]; intros i; simpl; [discriminate|].
  destruct (eqb x a) eqn:E.
  - intros H. inversion H. apply eqb_spec in E. subst. reflexivity.
  - destruct (index_of eqb a l) as [k|]; simpl; [|discriminate].
    intros H. inversion H. simpl. apply IH. reflexivity.
Qed.

Lemma index_of_In (a : A) (l : list A) :
  In a l -> exists i, index_of eqb a l = Some i.
Proof.
  induction l as [|x l IH]; simpl; [tauto|].
  intros Hin. destruct (eqb x a) eqn:E; [eauto|].
  destruct Hin as [->|Hin]; [rewrite eqb_refl_of_spec in E; discriminate|].
  destruct (IH Hin) as [i Hi]. rewrite Hi. simpl. eauto.
Qed.

End UniqueFacts.

Lemma key_eqb_eq (k1 k2 : key) : key_eqb k1 k2 = true <-> k1 = k2.
Proof.
  destruct k1 as [s1 c1], k2 as [s2 c2]. unfold key_eqb. simpl.
  rewrite andb_true_iff, Z.eqb_eq, String.eqb_eq. split.
  - intros [-> ->]. reflexivity.
  - intros H. inversion H. auto.
Qed.

Lemma In_insert_sorted (z x : Z) (l : list Z) :
  In x (insert_sorted z l) <-> x = z \/ In x l.
Proof.
  induction l as [|y l IH]; simpl.
  - intuition.
  - destruct (Z.leb z y); simpl; [intuition|]. rewrite IH. intuition.
Qed.

Lemma In_sort (x : Z) (l : list Z) : In x (sort l) <-> In x l.
Proof.
  unfold sort. induction l as [|y l IH]; simpl; [tauto|].
  rewrite In_insert_sorted, IH. intuition.
Qed.

Lemma mapM_Ok {A B : Type} (f : A -> result B) (l : list A) (ys : list B) :
  mapM f l = Ok ys ->
  forall k x, nth_error l k = Some x ->
              exists y, nth_error ys k = Some y /\ f x = Ok y.
Proof.
  revert ys. induction l as [|a l IH]; intros ys H k x Hk.
  - destruct k; discriminate.
  - simpl in H. destruct (f a) as [b|e] eqn:Ea; simpl in H; [|discriminate].
    destruct (mapM f l) as [bs|e] eqn:El; simpl in H; [|discriminate].
    inversion H; subst. destruct k as [|k]; simpl in *.
    + inversion Hk; subst. eauto.
    + eapply IH; eauto.
Qed.

Lemma mapM_all_Ok {A B : Type} (f : A -> result B) (l : list A) :
  (forall x, In x l -> exists y, f x = Ok y) -> exists ys, mapM f l = Ok ys.
Proof.
  induction l as [|a l IH]; intros H; simpl; [eauto|].
  destruct (H a (or_introl eq_refl)) as [b Hb]. rewrite Hb. simpl.
  destruct IH as [bs Hbs]; [intros x Hx; apply H; right; exact Hx|].
  rewrite Hbs. simpl. eauto.
Qed.

(** If some element fails and every failure is the same exception, the
    loop ends with that exception. *)
Lemma mapM_Raise {A B : Type} (f : A -> result B) (l : list A) (e : exn) :
  (forall x e', In x l -> f x = Raise e' -> e' = e) ->
  (exists x, In x l /\ f x = Raise e) ->
  mapM f l = Raise e.
Proof.
  induction l as [|a l IH]; intros Hall [x [Hin Hx]]; [destruct Hin|].
  simpl. destruct (f a) as [b|e'] eqn:Ea; simpl.
  - destruct Hin as [->|Hin]; [congruence|].
    rewrite IH; [reflexivity| |eauto].
    intros y e'' Hy. apply Hall. right. exact Hy.
  - f_equal. eapply Hall; [left; reflexivity | exact Ea].
Qed.

Lemma nth_error_list_prod {A B : Type} (l : list A) (l' : list B)
      (i j : nat) (a : A) (b : B) :
  nth_error l i = Some a -> nth_error l' j = Some b ->
  nth_error (list_prod l l') (i * List.length l' + j) = Some (a, b).
Proof.
  revert i. induction l as [|x l IH]; intros i Hi Hj.
  - destruct i; discriminate.
  - simpl. destruct i as [|i]; simpl in *.
    + inversion Hi; subst.
      rewrite nth_error_app1.
      * rewrite nth_error_map, Hj. reflexivity.
      * rewrite length_map. apply nth_error_Some. congruence.
    + rewrite nth_error_app2; rewrite length_map; [|lia].
      replace (List.length l' + i * List.length l' + j - List.length l')%nat
        with (i * List.length l' + j)%nat by lia.
      apply IH; assumption.
Qed.

(** ** The pivot table *)

Lemma filter_all {A : Type} (f : A -> bool) (l : list A) :
  (forall x, In x l -> f x = true) -> filter f l = l.
Proof.
  induction l as [|a l IH]; intros H; simpl; [reflexivity|].
  rewrite (H a (or_introl eq_refl)). f_equal. apply IH.
  intros x Hx. apply H. right. exact Hx.
Qed.

Lemma find_column {B : Type} (g : string -> B) (c : string) (l : list string) :
  find (fun cx => String.eqb (fst cx) c) (map (fun c' => (c', g c')) l)
  = if isin c l then Some (c, g c) else None.
Proof.
  induction l as [|a l IH]; simpl; [reflexivity|].
  rewrite (String.eqb_sym c a). destruct (String.eqb a c) eqn:E; simpl.
  - apply String.eqb_eq in E. subst. reflexivity.
  - exact IH.
Qed.

Lemma isin_In (c : string) (l : list string) : isin c l = true <-> In c l.
Proof.
  unfold isin. rewrite existsb_exists. split.
  - intros [x [Hin E]]. apply String.eqb_eq in E. subst. exact Hin.
  - intros H. exists c. split; [exact H | apply String.eqb_refl].
Qed.

Lemma columns_labels (d : DataFrame) (fill : float64) :
  map fst (columns (pivot_table d fill))
  = unique String.eqb (map (fun kv => snd (fst kv)) (dropna (agg_mean d))).
Proof. unfold pivot_table. simpl. rewrite map_map. simpl. apply map_id. Qed.

Lemma get_column_pivot (d : DataFrame) (fill : float64) (c : string) :
  get_column (pivot_table d fill) c
  = if isin c (map fst (columns (pivot_table d fill)))
    then Ok (map (cell (dropna (agg_mean d)) fill c) (index (pivot_table d fill)))
    else Raise KeyError.
Proof.
  rewrite columns_labels. unfold get_column, pivot_table. simpl.
  rewrite find_column. destruct (isin c _); reflexivity.
Qed.

Lemma agged_key_in (d : DataFrame) (k : key) (v : float64) :
  In (k, v) (dropna (agg_mean d)) -> In k (map row_key d).
Proof.
  unfold dropna, agg_mean. rewrite filter_In, in_map_iff.
  intros [[k' [Hk Hin]] _]. inversion Hk; subst.
  apply (proj1 (In_unique key_eqb key_eqb_eq _ _)) in Hin. exact Hin.
Qed.

Lemma lookup_Some (k : key) (v : float64) (agged : list (key * float64)) :
  lookup k agged = Some v -> In (k, v) agged.
Proof.
  unfold lookup. destruct (find _ agged) as [[k' v']|] eqn:E; simpl; [|discriminate].
  intros H. inversion H; subst. apply find_some in E. destruct E as [Hin Hk].
  simpl in Hk. apply key_eqb_eq in Hk. subst. exact Hin.
Qed.

(** A (site, condition) combination without a row is filled. *)
Lemma cell_absent (d : DataFrame) (fill : float64) (c : string) (s : Z) :
  ~ In (s, c) (map row_key d) ->
  cell (dropna (agg_mean d)) fill c s = fill.
Proof.
  intros Hnot. unfold cell.
  destruct (lookup (s, c) (dropna (agg_mean d))) as [v|] eqn:E; [|reflexivity].
  exfalso. apply Hnot. eapply agged_key_in. apply lookup_Some. exact E.
Qed.

Lemma column_nonempty (d : DataFrame) (fill : float64) (c : string) (x : list float64) :
  get_column (pivot_table d fill) c = Ok x -> x <> [].
Proof.
  rewrite get_column_pivot. destruct (isin c _) eqn:E; [|discriminate].
  assert (Hs : exists s, In s (index (pivot_table d fill))).
  { apply isin_In in E. rewrite columns_labels in E.
    apply (proj1 (In_unique String.eqb String.eqb_eq _ _)) in E.
    apply in_map_iff in E. destruct E as [[[s c'] v] [Hc Hin]].
    exists s. unfold pivot_table. simpl. apply In_sort.
    apply (proj2 (In_unique Z.eqb Z.eqb_eq _ _)). apply in_map_iff.
    exists (s, c', v). split; [reflexivity | exact Hin]. }
  destruct Hs as [s Hs].
  destruct (index (pivot_table d fill)) as [|z l]; [destruct Hs|].
  intros H. inversion H. discriminate.
Qed.

Lemma column_length (d : DataFrame) (fill : float64) (c : string) (x : list float64) :
  get_column (pivot_table d fill) c = Ok x ->
  List.length x = List.length (index (pivot_table d fill)).
Proof.
  rewrite get_column_pivot. destruct (isin c _); [|discriminate].
  intros H. inversion H. apply length_map.
Qed.

(** *** Finite tables *)

Lemma mean_finite (l : list float64) :
  Forall (fun v => Float.isfinite v = true) l -> l <> [] ->
  Float.mean l = Finite (Rsum (map to_R l) / INR (List.length l)).
Proof.
  intros Hf Hne. unfold Float.mean. rewrite (finite_list l Hf) at 1.
  rewrite sum_finite. simpl. rewrite Reqb_false; [reflexivity|].
  apply not_0_INR. destruct l; [congruence | discriminate].
Qed.

Lemma group_finite (d : DataFrame) (k : key) :
  all_finite d -> Forall (fun v => Float.isfinite v = true) (group d k).
Proof.
  unfold all_finite, group. rewrite !Forall_forall. intros H v Hv.
  apply in_map_iff in Hv. destruct Hv as [r [Hr Hin]]. subst.
  apply filter_In in Hin. apply H. apply Hin.
Qed.

Lemma group_nonempty (d : DataFrame) (k : key) :
  In k (map row_key d) -> group d k <> [].
Proof.
  intros Hin. apply in_map_iff in Hin. destruct Hin as [r [Hk Hr]].
  assert (H : In (metric r) (group d k)).
  { unfold group. apply in_map. apply filter_In. split; [exact Hr|].
    apply key_eqb_eq. exact Hk. }
  destruct (group d k); [destruct H | discriminate].
Qed.

Lemma agg_mean_finite (d : DataFrame) (kv : key * float64) :
  all_finite d -> In kv (agg_mean d) -> Float.isfinite (snd kv) = true.
Proof.
  intros Hf Hin. unfold agg_mean in Hin. apply in_map_iff in Hin.
  destruct Hin as [k [Hk Hin]]. subst. simpl.
  apply (proj1 (In_unique key_eqb key_eqb_eq _ _)) in Hin.
  rewrite mean_finite; [reflexivity | apply group_finite; exact Hf
                        | apply group_nonempty; exact Hin].
Qed.

Lemma dropna_finite (d : DataFrame) : all_finite d -> dropna (agg_mean d) = agg_mean d.
Proof.
  intros Hf. unfold dropna. apply filter_all. intros kv Hin.
  pose proof (agg_mean_finite d kv Hf Hin) as H.
  destruct (snd kv); [reflexivity | discriminate | discriminate].
Qed.

Lemma cell_finite (d : DataFrame) (fill : float64) (c : string) (s : Z) :
  all_finite d -> Float.isfinite fill = true ->
  Float.isfinite (cell (dropna (agg_mean d)) fill c s) = true.
Proof.
  intros Hf Hfill. unfold cell.
  destruct (lookup (s, c) (dropna (agg_mean d))) as [v|] eqn:E; [|exact Hfill].
  apply lookup_Some in E. rewrite dropna_finite in E by exact Hf.
  apply (agg_mean_finite d _ Hf E).
Qed.

Lemma column_finite (d : DataFrame) (fill : float64) (c : string) (x : list float64) :
  all_finite d -> Float.isfinite fill = true ->
  get_column (pivot_table d fill) c = Ok x ->
  Forall (fun v => Float.isfinite v = true) x.
Proof.
  intros Hf Hfill. rewrite get_column_pivot. destruct (isin c _); [|discriminate].
  intros H. inversion H. apply Forall_forall. intros v Hv.
  apply in_map_iff in Hv. destruct Hv as [s [Hs _]]. subst v.
  apply cell_finite; assumption.
Qed.

Lemma column_exists (d : DataFrame) (fill : float64) (c : string) :
  all_finite d -> In c (map condition d) ->
  exists x, get_column (pivot_table d fill) c = Ok x.
Proof.
  intros Hf Hin. rewrite get_column_pivot.
  assert (E : isin c (map fst (columns (pivot_table d fill))) = true).
  { apply isin_In. rewrite columns_labels.
    apply (proj2 (In_unique String.eqb String.eqb_eq _ _)).
    rewrite dropna_finite by exact Hf.
    apply in_map_iff in Hin. destruct Hin as [r [Hc Hr]].
    apply in_map_iff. exists (row_key r, Float.mean (group d (row_key r))).
    split; [exact Hc|]. unfold agg_mean. apply in_map_iff.
    exists (row_key r). split; [reflexivity|].
    apply (proj2 (In_unique key_eqb key_eqb_eq _ _)). apply in_map. exact Hr. }
  rewrite E. eauto.
Qed.

Lemma assign_metric_finite (p : nat) (df : DataFrame) :
  all_finite df -> all_finite (assign_metric p df).
Proof.
  unfold all_finite, assign_metric. intros H. apply Forall_map.
  eapply Forall_impl; [|exact H]. intros r Hr. simpl.
  simpl in Hr. destruct (metric r); try discriminate Hr. destruct p; reflexivity.
Qed.

Lemma assign_metric_conditions (p : nat) (df : DataFrame) :
  map condition (assign_metric p df) = map condition df.
Proof. unfold assign_metric. rewrite map_map. reflexivity. Qed.

Lemma assign_metric_keys (p : nat) (df : DataFrame) :
  map row_key (assign_metric p df) = map row_key df.
Proof. unfold assign_metric. rewrite map_map. reflexivity. Qed.

(** *** Profiles *)

Lemma profile_finite (df : DataFrame) (p : nat) (c : string) (x : list float64) :
  all_finite df -> profile df p c = Ok x ->
  exists a, x = map Finite a /\ a <> [].
Proof.
  intros Hf H. unfold profile in H.
  pose proof (column_nonempty _ _ _ _ H) as Hne.
  apply column_finite in H; [|apply assign_metric_finite; exact Hf|reflexivity].
  exists (map to_R x). split; [apply finite_list; exact H|].
  destruct x; [congruence | discriminate].
Qed.

Lemma profile_exists (df : DataFrame) (p : nat) (c : string) :
  all_finite df -> In c (map condition df) ->
  exists a, profile df p c = Ok (map Finite a) /\ a <> [].
Proof.
  intros Hf Hin. unfold profile.
  destruct (column_exists (assign_metric p df) (Finite 0) c) as [x Hx].
  - apply assign_metric_finite. exact Hf.
  - rewrite assign_metric_conditions. exact Hin.
  - destruct (profile_finite df p c x Hf Hx) as [a [-> Ha]]. eauto.
Qed.

(** ** The similarity matrix *)

Lemma unique_subset {A : Type} (eqb : A -> A -> bool) (a : A) (l : list A) :
  In a (unique eqb l) -> In a l.
Proof.
  induction l as [|x l IH]; simpl; [tauto|].
  rewrite filter_In. intros [H|[H _]]; auto.
Qed.

Lemma drop_duplicates_finite (df : DataFrame) :
  all_finite df -> all_finite (drop_duplicates df).
Proof.
  unfold all_finite, drop_duplicates. rewrite !Forall_forall.
  intros H r Hr. apply H. eapply unique_subset. exact Hr.
Qed.

Lemma finite_notnull (df : DataFrame) : all_finite df -> isnull_any df = false.
Proof.
  unfold all_finite, isnull_any. intros H.
  induction H as [|r df Hr _ IH]; simpl; [reflexivity|].
  rewrite IH. destruct (metric r); try discriminate Hr. reflexivity.
Qed.

Lemma escape_similarity_Ok (df : DataFrame) (p : nat) (m : Matrix) :
  escape_similarity df p = Ok m ->
  labels m = conditions_of (drop_duplicates df)
  /\ mapM (fun cc => pair_similarity (drop_duplicates df) p (fst cc) (snd cc))
          (list_prod (labels m) (labels m)) = Ok (data m).
Proof.
  unfold escape_similarity, conditions_of.
  destruct (isnull_any (drop_duplicates df)); [discriminate|].
  destruct (mapM _ _) as [ys|e] eqn:E; simpl; [|discriminate].
  intros H. inversion H; subst; simpl. auto.
Qed.

(** Every cell of the returned matrix is the value the loop body computed
    for that ordered pair of labels. *)
Lemma escape_similarity_loc (df : DataFrame) (p : nat) (m : Matrix) (c1 c2 : string) :
  escape_similarity df p = Ok m ->
  In c1 (labels m) -> In c2 (labels m) ->
  exists v, loc m c1 c2 = Some v
            /\ pair_similarity (drop_duplicates df) p c1 c2 = Ok v.
Proof.
  intros H H1 H2. apply escape_similarity_Ok in H. destruct H as [_ Hm].
  destruct (index_of_In String.eqb String.eqb_eq c1 _ H1) as [i Hi].
  destruct (index_of_In String.eqb String.eqb_eq c2 _ H2) as [j Hj].
  unfold loc, iloc. rewrite Hi, Hj.
  apply (index_of_nth String.eqb String.eqb_eq) in Hi, Hj.
  assert (Hlt : (j <? List.length (labels m))%nat = true).
  { apply Nat.ltb_lt. apply nth_error_Some. congruence. }
  rewrite Hlt.
  pose proof (nth_error_list_prod _ _ _ _ _ _ Hi Hj) as Hij.
  destruct (mapM_Ok _ _ _ Hm _ _ Hij) as [v [Hv Hp]].
  exists v. split; assumption.
Qed.

Lemma loc_notin (m : Matrix) (c1 c2 : string) :
  ~ (In c1 (labels m) /\ In c2 (labels m)) -> loc m c1 c2 = None.
Proof.
  intros H. unfold loc.
  destruct (index_of String.eqb c1 (labels m)) as [i|] eqn:E1; [|reflexivity].
  destruct (index_of String.eqb c2 (labels m)) as [j|] eqn:E2; [|reflexivity].
  exfalso. apply H.
  apply (index_of_nth String.eqb String.eqb_eq) in E1, E2.
  split; eapply nth_error_In; eassumption.
Qed.

Lemma profile_condition (df : DataFrame) (p : nat) (c : string) (x : list float64) :
  profile df p c = Ok x -> In c (map condition df).
Proof.
  unfold profile. rewrite get_column_pivot.
  destruct (isin c _) eqn:E; [|discriminate]. intros _.
  apply isin_In in E. rewrite columns_labels in E.
  apply (proj1 (In_unique String.eqb String.eqb_eq _ _)) in E.
  apply in_map_iff in E. destruct E as [[[s c'] v] [Hc Hin]]. simpl in Hc. subst c'.
  apply agged_key_in in Hin. rewrite assign_metric_keys in Hin.
  apply in_map_iff in Hin. destruct Hin as [r [Hk Hr]].
  apply in_map_iff. exists r. split; [|exact Hr].
  unfold row_key in Hk. inversion Hk. reflexivity.
Qed.

Lemma In_conditions_of (df : DataFrame) (c : string) :
  In c (conditions_of df) <-> In c (map condition df).
Proof. apply (In_unique String.eqb String.eqb_eq). Qed.

Lemma norm_zero_dot (a : list R) : norm (map Finite a) = Finite 0 <-> dot a a = 0.
Proof.
  rewrite norm_finite. rewrite <- sqrt_dot_zero. split.
  - intros H. inversion H. reflexivity.
  - intros H. rewrite H. reflexivity.
Qed.

(** On a finite table the loop body either returns or fails its
    assertion. *)
Lemma pair_similarity_outcome (df : DataFrame) (p : nat) (c1 c2 : string) (e : exn) :
  all_finite df -> In c1 (map condition df) -> In c2 (map condition df) ->
  pair_similarity df p c1 c2 = Raise e -> e = AssertionError.
Proof.
  intros Hf H1 H2. rewrite pair_similarity_unfold.
  destruct (profile_exists df p c1 Hf H1) as [a [Ha _]].
  destruct (profile_exists df p c2 Hf H2) as [b [Hb _]].
  rewrite Ha, Hb. simpl.
  destruct (forallb _ _); congruence.
Qed.

(** On a finite table whose profiles all have a non-zero norm the whole
    matrix is returned. *)
Lemma escape_similarity_returns (df : DataFrame) (p : nat) :
  all_finite df ->
  (forall c x, profile (drop_duplicates df) p c = Ok x -> norm x <> Finite 0) ->
  exists m, escape_similarity df p = Ok m.
Proof.
  intros Hf Hn. pose proof (drop_duplicates_finite df Hf) as Hf'.
  unfold escape_similarity. rewrite (finite_notnull _ Hf').
  fold (conditions_of (drop_duplicates df)).
  destruct (mapM_all_Ok
              (fun cc => pair_similarity (drop_duplicates df) p (fst cc) (snd cc))
              (list_prod (conditions_of (drop_duplicates df))
                         (conditions_of (drop_duplicates df)))) as [ys Hys].
  - intros [c1 c2] Hin. apply in_prod_iff in Hin. destruct Hin as [H1 H2].
    apply In_conditions_of in H1, H2.
    destruct (profile_exists _ p c1 Hf' H1) as [a [Ha _]].
    destruct (profile_exists _ p c2 Hf' H2) as [b [Hb _]].
    eexists. simpl. apply (pair_similarity_finite _ _ _ _ a b Ha Hb).
    + intros H. apply (Hn _ _ Ha). apply norm_zero_dot. exact H.
    + intros H. apply (Hn _ _ Hb). apply norm_zero_dot. exact H.
  - rewrite Hys. simpl. eauto.
Qed.

(** ** Evaluating the examples *)

Lemma pow_finite (a : R) (p : nat) : Float.pow (Finite a) p = Finite (a ^ p).
Proof. destruct p; reflexivity. Qed.

Lemma mean_singleton (a : R) : Float.mean [Finite a] = Finite a.
Proof.
  unfold Float.mean, Float.sum. simpl. rewrite Reqb_false by lra. f_equal. field.
Qed.

Lemma mean_pair (a b : R) : Float.mean [Finite a; Finite b] = Finite ((a + b) / 2).
Proof.
  unfold Float.mean, Float.sum. simpl. rewrite Reqb_false by lra. f_equal. field.
Qed.

(** Computes the profile of a condition of a concrete table: first the
    group means, then the pivoted column. *)
Ltac eval_profile :=
  unfold profile, pivot_table;
  match goal with
  | |- context [agg_mean ?d] =>
      let H := fresh "Hagg" in
      eassert (H : agg_mean d = _);
      [ unfold agg_mean, assign_metric; cbn -[Float.mean Float.pow];
        rewrite ?pow_finite, ?mean_singleton, ?mean_pair; reflexivity
      | rewrite H; clear H; cbn ]
  end.

(** The matrix of a table with two conditions, from their profiles. *)
Lemma escape_similarity_two (df : DataFrame) (p : nat) (cA cB : string) (a b : list R) :
  isnull_any (drop_duplicates df) = false ->
  conditions_of (drop_duplicates df) = [cA; cB] ->
  profile (drop_duplicates df) p cA = Ok (map Finite a) ->
  profile (drop_duplicates df) p cB = Ok (map Finite b) ->
  dot a a <> 0 -> dot b b <> 0 ->
  escape_similarity df p
  = Ok (mkMatrix [cA; cB]
          [Finite 1; Finite (cosine a b); Finite (cosine a b); Finite 1]).
Proof.
  intros Hnull Hc HA HB Ha Hb. unfold escape_similarity.
  rewrite Hnull. unfold conditions_of in Hc. rewrite Hc. simpl.
  rewrite (pair_similarity_self _ _ _ _ HA Ha).
  rewrite (pair_similarity_self _ _ _ _ HB Hb).
  rewrite (pair_similarity_comm _ _ cB cA).
  rewrite (pair_similarity_finite _ _ _ _ _ _ HA HB Ha Hb).
  reflexivity.
Qed.

Lemma pow_pos_lt (x : R) (p : nat) : 0 < x -> 0 < x ^ p.
Proof. intros H. apply pow_lt. exact H. Qed.

Lemma sqrt2_bounds : 141421 / 100000 < sqrt 2 < 141422 / 100000.
Proof.
  pose proof (sqrt_sqrt 2 ltac:(lra)) as H.
  pose proof (sqrt_pos 2) as Hp.
  split; nra.
Qed.

Lemma inv_sqrt2 : 1 / sqrt 2 = sqrt 2 / 2.
Proof.
  pose proof (sqrt_sqrt 2 ltac:(lra)) as H.
  pose proof sqrt2_bounds as Hb.
  field_simplify_eq; [lra | lra].
Qed.

Lemma end_to_end_matrix :
  escape_similarity table_end_to_end 1
  = Ok (mkMatrix ["A"; "B"]%string
          [Finite 1; Finite (1 / sqrt 2); Finite (1 / sqrt 2); Finite 1]).
Proof.
  rewrite (escape_similarity_two table_end_to_end 1 "A" "B" [1 ^ 1; 1 ^ 1] [1 ^ 1; 0 ^ 1]).
  - assert (E : cosine [1 ^ 1; 1 ^ 1] [1 ^ 1; 0 ^ 1] = 1 / sqrt 2).
    { unfold cosine, dot. simpl.
      replace (1 * 1 * (1 * 1) + (1 * 1 * (1 * 1) + 0)) with 2 by lra.
      replace (1 * 1 * (1 * 1) + (0 * 1 * (0 * 1) + 0)) with 1 by lra.
      rewrite sqrt_1. pose proof sqrt2_bounds. field. lra. }
    rewrite E. reflexivity.
  - reflexivity.
  - reflexivity.
  - unfold table_end_to_end. cbn [drop_duplicates]. cbn. eval_profile. reflexivity.
  - unfold table_end_to_end. cbn. eval_profile. reflexivity.
  - unfold dot. simpl. lra.
  - unfold dot. simpl. lra.
Qed.

Lemma disjoint_matrix (p : nat) :
  escape_similarity table_disjoint p
  = Ok (mkMatrix ["A"; "B"]%string [Finite 1; Finite 0; Finite 0; Finite 1]).
Proof.
  rewrite (escape_similarity_two table_disjoint p "A" "B" [2 ^ p; 0] [0; 3 ^ p]).
  - assert (E : cosine [2 ^ p; 0] [0; 3 ^ p] = 0).
    { unfold cosine, dot. simpl. unfold Rdiv.
      replace (2 ^ p * 0 + (0 * 3 ^ p + 0)) with 0 by ring. apply Rmult_0_l. }
    rewrite E. reflexivity.
  - reflexivity.
  - reflexivity.
  - unfold table_disjoint. cbn. eval_profile. reflexivity.
  - unfold table_disjoint. cbn. eval_profile. reflexivity.
  - unfold dot. simpl. pose proof (pow_pos_lt 2 p ltac:(lra)). nra.
  - unfold dot. simpl. pose proof (pow_pos_lt 3 p ltac:(lra)). nra.
Qed.

Lemma site_in_universe (df : DataFrame) (p : nat) (s : Z) :
  all_finite df -> In s (map site df) -> In s (site_universe df p).
Proof.
  intros Hf Hin. unfold site_universe, pivot_table. simpl.
  apply In_sort. apply (proj2 (In_unique Z.eqb Z.eqb_eq _ _)).
  rewrite dropna_finite by (apply assign_metric_finite; exact Hf).
  apply in_map_iff in Hin. destruct Hin as [r [Hs Hr]].
  set (d := assign_metric p df).
  apply in_map_iff.
  exists (row_key r, Float.mean (group d (row_key r))). split; [exact Hs|].
  unfold agg_mean. apply in_map_iff. exists (row_key r). split; [reflexivity|].
  apply (proj2 (In_unique key_eqb key_eqb_eq _ _)).
  unfold d. rewrite assign_metric_keys. apply in_map. exact Hr.
Qed.

Lemma profile_fill (df : DataFrame) (p : nat) (c : string) (x : list float64) :
  profile df p c = Ok x ->
  List.length x = List.length (site_universe df p)
  /\ forall i s, nth_error (site_universe df p) i = Some s ->
                 ~ In (s, c) (map row_key df) ->
                 nth_error x i = Some (Finite 0).
Proof.
  intros Hx. split; [apply (column_length _ _ _ _ Hx)|].
  intros i s Hi Hnot. unfold profile in Hx. rewrite get_column_pivot in Hx.
  destruct (isin c _); [|discriminate].
  injection Hx as <-.
  unfold site_universe, pivot_table in Hi. simpl in Hi.
  rewrite nth_error_map, Hi. simpl. f_equal.
  apply cell_absent. rewrite assign_metric_keys. exact Hnot.
Qed.

(** *** The emphasis example *)

Lemma cosine_swap (x y : R) :
  0 < x -> 0 < y ->
  cosine [x; y] [y; x] = 2 * x * y / (x * x + y * y).
Proof.
  intros Hx Hy. unfold cosine, dot. simpl.
  replace (y * y + (x * x + 0)) with (x * x + (y * y + 0)) by ring.
  rewrite sqrt_sqrt by nra. field. nra.
Qed.

Lemma emphasis_closed_form (p : nat) :
  emphasis_similarity p
  = 2 * (9/10) ^ p * (1/10) ^ p / ((9/10) ^ p * (9/10) ^ p + (1/10) ^ p * (1/10) ^ p).
Proof.
  unfold emphasis_similarity. apply cosine_swap; apply pow_pos_lt; lra.
Qed.

Lemma emphasis_matrix (p : nat) :
  escape_similarity table_emphasis p
  = Ok (mkMatrix ["A"; "B"]%string
          [Finite 1; Finite (emphasis_similarity p);
           Finite (emphasis_similarity p); Finite 1]).
Proof.
  pose proof (pow_pos_lt (9/10) p ltac:(lra)) as Hx.
  pose proof (pow_pos_lt (1/10) p ltac:(lra)) as Hy.
  rewrite (escape_similarity_two table_emphasis p "A" "B"
             [(9/10) ^ p; (1/10) ^ p] [(1/10) ^ p; (9/10) ^ p]).
  - reflexivity.
  - reflexivity.
  - reflexivity.
  - unfold table_emphasis. cbn. eval_profile. reflexivity.
  - unfold table_emphasis. cbn. eval_profile. reflexivity.
  - unfold dot. simpl. nra.
  - unfold dot. simpl. nra.
Qed.

Lemma emphasis_pos (p : nat) : 0 < emphasis_similarity p.
Proof.
  rewrite emphasis_closed_form.
  pose proof (pow_pos_lt (9/10) p ltac:(lra)) as Hx.
  pose proof (pow_pos_lt (1/10) p ltac:(lra)) as Hy.
  apply Rdiv_lt_0_compat; nra.
Qed.

Lemma div_lt_cross (a b c d : R) :
  0 < b -> 0 < d -> a * d < c * b -> a / b < c / d.
Proof.
  intros Hb Hd H.
  apply Rmult_lt_reg_r with (r := b * d); [nra|].
  replace (a / b * (b * d)) with (a * d) by (field; lra).
  replace (c / d * (b * d)) with (c * b) by (field; lra).
  exact H.
Qed.

Lemma emphasis_decreasing (p : nat) : emphasis_similarity (S p) < emphasis_similarity p.
Proof.
  rewrite !emphasis_closed_form. simpl.
  pose proof (pow_pos_lt (9/10) p ltac:(lra)) as Hx.
  pose proof (pow_pos_lt (1/10) p ltac:(lra)) as Hy.
  assert (Hle : (1/10) ^ p <= (9/10) ^ p) by (apply pow_incr; lra).
  set (x := (9/10) ^ p) in *. set (y := (1/10) ^ p) in *.
  assert (Hxy : 0 < x * y) by nra.
  assert (Hyy : y * y <= x * x) by nra.
  assert (Hxx : 0 < x * x) by nra.
  apply div_lt_cross; [nra | nra |].
  replace (2 * (9 / 10 * x) * (1 / 10 * y) * (x * x + y * y))
    with ((x * y) * (18 / 100 * (x * x) + 18 / 100 * (y * y))) by field.
  replace (2 * x * y * (9 / 10 * x * (9 / 10 * x) + 1 / 10 * y * (1 / 10 * y)))
    with ((x * y) * (162 / 100 * (x * x) + 2 / 100 * (y * y))) by field.
  apply Rmult_lt_compat_l; [exact Hxy | lra].
Qed.

Lemma emphasis_bound (p : nat) : emphasis_similarity p <= 2 * (1/9) ^ p.
Proof.
  rewrite emphasis_closed_form.
  pose proof (pow_pos_lt (9/10) p ltac:(lra)) as Hx.
  pose proof (pow_pos_lt (1/9) p ltac:(lra)) as Hq.
  assert (Hy : (1/10) ^ p = (1/9) ^ p * (9/10) ^ p).
  { rewrite <- Rpow_mult_distr. f_equal. field. }
  rewrite Hy.
  set (x := (9/10) ^ p) in *. set (q := (1/9) ^ p) in *.
  assert (Hxx : 0 < x * x) by nra.
  assert (Hden : 0 < x * x + q * x * (q * x)) by nra.
  apply Rmult_le_reg_r with (r := x * x + q * x * (q * x)); [exact Hden|].
  replace (2 * x * (q * x) / (x * x + q * x * (q * x)) * (x * x + q * x * (q * x)))
    with (2 * q * (x * x)) by (field; lra).
  assert (0 <= q * x * (q * x)) by nra.
  nra.
Qed.

Lemma emphasis_limit (eps : R) :
  0 < eps -> exists N, forall p, (N <= p)%nat -> emphasis_similarity p < eps.
Proof.
  intros He.
  destruct (pow_lt_1_zero (1/9) ltac:(rewrite Rabs_pos_eq; lra) (eps / 2) ltac:(lra))
    as [N HN].
  exists N. intros p Hp.
  pose proof (HN p Hp) as H. rewrite Rabs_pos_eq in H by (apply pow_le; lra).
  pose proof (emphasis_bound p). lra.
Qed.

(** ** Duplicate keys *)

Section UniqueMore.
Context {A : Type} (eqb : A -> A -> bool).
Hypothesis eqb_spec : forall a b, eqb a b = true <-> a = b.

Lemma filter_filter_comm (f g : A -> bool) (l : list A) :
  filter f (filter g l) = filter g (filter f l).
Proof.
  induction l as [|a l IH]; simpl; [reflexivity|].
  destruct (f a) eqn:Ef, (g a) eqn:Eg; simpl; rewrite ?Ef, ?Eg, IH; reflexivity.
Qed.

Lemma filter_idem (f : A -> bool) (l : list A) :
  filter f (filter f l) = filter f l.
Proof.
  induction l as [|a l IH]; simpl; [reflexivity|].
  destruct (f a) eqn:Ef; simpl; rewrite ?Ef, IH; reflexivity.
Qed.

Lemma filter_unique (x : A) (l : list A) :
  filter (fun b => negb (eqb x b)) (unique eqb l)
  = unique eqb (filter (fun b => negb (eqb x b)) l).
Proof.
  induction l as [|y l IH]; simpl; [reflexivity|].
  destruct (eqb x y) eqn:E; simpl.
  - apply eqb_spec in E. subst y. rewrite filter_idem. exact IH.
  - f_equal. rewrite filter_filter_comm, IH. reflexivity.
Qed.

Lemma NoDup_unique (l : list A) : NoDup (unique eqb l).
Proof.
  induction l as [|a l IH]; simpl; constructor.
  - rewrite filter_In. intros [_ H].
    rewrite (proj2 (eqb_spec a a) eq_refl) in H. discriminate.
  - apply NoDup_filter. exact IH.
Qed.


Lemma filter_none (f : A -> bool) (l : list A) :
  (forall b, In b l -> f b = false) -> filter f l = [].
Proof.
  induction l as [|a l IH]; intros H; simpl; [reflexivity|].
  rewrite (H a (or_introl eq_refl)). apply IH. intros b Hb. apply H. right. exact Hb.
Qed.


End UniqueMore.













(** *** The table with conflicting rows *)





(** *** A profile of norm zero *)

Lemma pair_zero_norm (d : DataFrame) (p : nat) (c1 c2 : string) (x : list float64) :
  all_finite d ->
  profile d p c1 = Ok x ->
  norm x = Finite 0 ->
  In c2 (map condition d) ->
  pair_similarity d p c1 c2 = Raise AssertionError.
Proof.
  intros Hf Hx Hn H2.
  destruct (profile_finite _ _ _ _ Hf Hx) as [a [-> Hne]].
  apply norm_zero_dot in Hn.
  destruct (profile_exists d p c2 Hf H2) as [b [Hb Hbne]].
  apply (pair_similarity_zero_norm d p c1 c2 a (map Finite b)); auto.
  destruct b; [congruence | discriminate].
Qed.

Lemma escape_similarity_zero_norm (df : DataFrame) (p : nat) (c : string) (x : list float64) :
  all_finite df ->
  profile (drop_duplicates df) p c = Ok x ->
  norm x = Finite 0 ->
  escape_similarity df p = Raise AssertionError.
Proof.
  intros Hf Hx Hn.
  pose proof (drop_duplicates_finite df Hf) as Hf'.
  set (d := drop_duplicates df) in *.
  assert (H1 : In c (map condition d)) by (eapply profile_condition; exact Hx).
  unfold escape_similarity. fold d.
  rewrite (finite_notnull d Hf'). fold (conditions_of d).
  rewrite (mapM_Raise _ _ AssertionError); [reflexivity| |].
  - intros [a1 a2] e' Hin He. apply in_prod_iff in Hin. destruct Hin as [Ha1 Ha2].
    apply In_conditions_of in Ha1, Ha2.
    exact (pair_similarity_outcome d p a1 a2 e' Hf' Ha1 Ha2 He).
  - exists (c, c). split.
    + apply in_prod; apply In_conditions_of; exact H1.
    + apply (pair_zero_norm d p c c x Hf' Hx Hn H1).
Qed.

Lemma table_zero_raises : escape_similarity table_zero 1 = Raise AssertionError.
Proof.
  apply (escape_similarity_zero_norm table_zero 1 "A" (map Finite [0 ^ 1])).
  - repeat constructor.
  - unfold table_zero. cbn. eval_profile. reflexivity.
  - apply norm_zero_dot. unfold dot. simpl. lra.
Qed.

(** ** Dissimilarity transform *)

(** C5, as the code has it: with method ['minus_log'] the transform never
    raises.  For [s > 0] it returns [-ln s]; at [s = 0] it returns [inf] and
    for [s < 0] it returns [nan] (numpy's [log] warns, it does not raise).
    At [s = 1] the result is [0]. *)
Theorem dissimilarity_minus_log (s : R) :
  (0 < s -> dissimilarity (Finite s) "minus_log" = Ok (Finite (- ln s)))
  /\ (s = 0 -> dissimilarity (Finite s) "minus_log" = Ok (Infinity false))
  /\ (s < 0 -> dissimilarity (Finite s) "minus_log" = Ok NaN)
  /\ dissimilarity (Finite 1) "minus_log" = Ok (Finite 0)
  /\ (forall x, exists d, dissimilarity x "minus_log" = Ok d).
Proof.
  unfold dissimilarity. simpl. repeat split; [| | | |eauto].
  - intros H. rewrite Rltb_true by exact H. reflexivity.
  - intros H. rewrite Rltb_false by lra. rewrite Reqb_true by exact H. reflexivity.
  - intros H. rewrite Rltb_false by lra. rewrite Reqb_false by lra. reflexivity.
  - rewrite Rltb_true by lra. simpl. rewrite ln_1. do 2 f_equal. lra.
Qed.

Lemma dissimilarity_minus_log_witness :
  dissimilarity (Finite (exp 1)) "minus_log" = Ok (Finite (- ln (exp 1)))
  /\ dissimilarity (Finite 0) "minus_log" = Ok (Infinity false)
  /\ dissimilarity (Finite (-1)) "minus_log" = Ok NaN.
Proof.
  destruct (dissimilarity_minus_log (exp 1)) as [H1 _].
  destruct (dissimilarity_minus_log 0) as [_ [H2 _]].
  destruct (dissimilarity_minus_log (-1)) as [_ [_ [H3 _]]].
  repeat split.
  - apply H1. apply exp_pos.
  - apply H2. reflexivity.
  - apply H3. lra.
Defined.

(** C5, counterexample: at [s = 0] and at [s = -1] the transform returns a
    value; no exception is raised. *)
Lemma dissimilarity_minus_log_no_error :
  dissimilarity (Finite 0) "minus_log" = Ok (Infinity false)
  /\ dissimilarity (Finite (-1)) "minus_log" = Ok NaN
  /\ ~ (forall s : R, s <= 0 ->
          exists e, dissimilarity (Finite s) "minus_log" = Raise e).
Proof.
  assert (H0 : dissimilarity (Finite 0) "minus_log" = Ok (Infinity false)).
  { unfold dissimilarity. simpl.
    rewrite Rltb_false by lra. rewrite Reqb_true by reflexivity. reflexivity. }
  assert (H1 : dissimilarity (Finite (-1)) "minus_log" = Ok NaN).
  { unfold dissimilarity. simpl.
    rewrite Rltb_false by lra. rewrite Reqb_false by lra. reflexivity. }
  repeat split; try assumption.
  intros H. destruct (H 0 (Rle_refl 0)) as [e He]. congruence.
Qed.

(** ** The end-to-end example *)

(** C1: for the table [{(A,1):1.0, (A,2):1.0, (B,1):1.0, (B,2):0.0}] and
    [p = 1] the similarity of A and B is [1/sqrt 2], which is 0.7071 to four
    places, and the ['one_minus'] transform of it is [1 - 1/sqrt 2], which
    is 0.2929 to four places; the transform of 0.7071 itself is 0.2929.
    The loop body run on this table gives these two cells. *)
Theorem end_to_end_example :
  exists m dm s d,
    escape_similarity table_end_to_end 1 = Ok m
    /\ loc m "A" "B" = Some (Finite s)
    /\ s = 1 / sqrt 2
    /\ Rabs (s - 0.7071) < 0.00005
    /\ dissimilarity (Finite s) "one_minus" = Ok (Finite d)
    /\ d = 1 - 1 / sqrt 2
    /\ Rabs (d - 0.2929) < 0.00005
    /\ dissimilarity (Finite 0.7071) "one_minus" = Ok (Finite 0.2929)
    /\ mds_matrices table_end_to_end [("A", "A"); ("B", "B")]%string
                    dissimilarity_method = Ok (m, dm)
    /\ loc dm "A" "B" = Some (Finite d).
Proof.
  eexists. eexists. exists (1 / sqrt 2), (1 - 1 / sqrt 2).
  split; [apply end_to_end_matrix|].
  pose proof sqrt2_bounds as Hb. pose proof inv_sqrt2 as Hi.
  split; [reflexivity|]. split; [reflexivity|].
  split; [rewrite Hi; apply Rabs_def1; lra|].
  split; [reflexivity|]. split; [reflexivity|].
  split; [rewrite Hi; apply Rabs_def1; lra|].
  split; [unfold dissimilarity; simpl; do 2 f_equal; lra|].
  split.
  - unfold mds_matrices. simpl.
    change (plot_table table_end_to_end [("A", "A"); ("B", "B")]%string)
      with table_end_to_end.
    rewrite end_to_end_matrix. reflexivity.
  - reflexivity.
Qed.

(** ** Properties of the similarity matrix *)

Lemma in_range_finite (p : nat) (df : DataFrame) : in_range p df -> all_finite df.
Proof.
  unfold in_range, all_finite. apply Forall_impl.
  intros r [v [Hv _]]. rewrite Hv. reflexivity.
Qed.

Lemma in_range_nonnegative (p : nat) (df : DataFrame) : in_range p df -> nonnegative df.
Proof.
  unfold in_range, nonnegative. apply Forall_impl.
  intros r [v [Hv [Hpos _]]]. exists v. split; assumption.
Qed.

Lemma dot_self_ge (a : list R) (x : R) : In x a -> x * x <= dot a a.
Proof.
  rewrite dot_self. induction a as [|y a IH]; simpl; [tauto|].
  pose proof (Rsum_squares_nonneg a) as Hn.
  intros [->|Hin]; [lra|]. specialize (IH Hin). nra.
Qed.

Lemma substantial_nonzero (a : list R) : substantial (map Finite a) -> dot a a <> 0.
Proof.
  unfold substantial. rewrite Exists_exists. intros [v [Hin Hv]].
  apply in_map_iff in Hin. destruct Hin as [x [<- Hx]]. simpl in Hv.
  pose proof (dot_self_ge a x Hx). nra.
Qed.

(** A property of the profile of every condition of a table follows from
    the property of the profiles of the conditions that have a row. *)
Lemma forall_profiles (d : DataFrame) (p : nat) (P : list float64 -> Prop) :
  (forall c, In c (map condition d) -> exists x, profile d p c = Ok x /\ P x) ->
  forall c x, profile d p c = Ok x -> P x.
Proof.
  intros H c x Hx.
  destruct (H c (profile_condition _ _ _ _ Hx)) as [y [Hy Py]].
  rewrite Hx in Hy. inversion Hy. subst. exact Py.
Qed.

Lemma end_to_end_profiles :
  profile (drop_duplicates table_end_to_end) 1 "A" = Ok (map Finite [1 ^ 1; 1 ^ 1])
  /\ profile (drop_duplicates table_end_to_end) 1 "B" = Ok (map Finite [1 ^ 1; 0 ^ 1]).
Proof.
  split; unfold table_end_to_end; cbn; eval_profile; reflexivity.
Qed.

Lemma zero_profiles :
  profile (drop_duplicates table_zero) 1 "A" = Ok (map Finite [0 ^ 1])
  /\ profile (drop_duplicates table_zero) 1 "B" = Ok (map Finite [1 ^ 1]).
Proof.
  split; unfold table_zero; cbn; eval_profile; reflexivity.
Qed.

(** C2, as the code has it: on a table whose values are in range and in
    which the profile of every condition has an entry of at least 1e-7,
    [escape_similarity] returns the matrix of the conditions of the table,
    every diagonal cell is 1, hence within 1e-9 of 1, and every cell of
    the row of a condition [c], the diagonal one included, is the value
    of the one loop body ([pair_similarity]) for that pair. *)
Theorem self_similarity_one (df : DataFrame) (p : nat) :
  in_range p df ->
  (forall c x, profile (drop_duplicates df) p c = Ok x -> substantial x) ->
  exists m,
    escape_similarity df p = Ok m
    /\ labels m = conditions_of (drop_duplicates df)
    /\ forall c, In c (labels m) ->
         (exists s, loc m c c = Some s /\ isclose s 1 1e-9)
         /\ (forall c2, In c2 (labels m) ->
               exists v, loc m c c2 = Some v
                         /\ pair_similarity (drop_duplicates df) p c c2 = Ok v).
Proof.
  intros Hr Hs.
  pose proof (in_range_finite p df Hr) as Hf.
  pose proof (drop_duplicates_finite df Hf) as Hf'.
  assert (Hn : forall c x, profile (drop_duplicates df) p c = Ok x ->
                           norm x <> Finite 0).
  { intros c x Hx H0. pose proof (Hs c x Hx) as Hsub.
    destruct (profile_finite _ _ _ _ Hf' Hx) as [a [-> _]].
    apply norm_zero_dot in H0. revert H0. apply substantial_nonzero. exact Hsub. }
  destruct (escape_similarity_returns df p Hf Hn) as [m Hm].
  exists m. split; [exact Hm|].
  destruct (escape_similarity_Ok _ _ _ Hm) as [Hl _]. split; [exact Hl|].
  intros c Hc. split.
  - destruct (escape_similarity_loc _ _ _ c c Hm Hc Hc) as [v [Hv Hp]].
    assert (Hc' : In c (map condition (drop_duplicates df))).
    { apply In_conditions_of. rewrite <- Hl. exact Hc. }
    destruct (profile_exists _ p c Hf' Hc') as [a [Ha _]].
    rewrite (pair_similarity_self _ _ _ _ Ha) in Hp.
    + inversion Hp; subst. exists (Finite 1). split; [exact Hv|].
      simpl. replace (1 - 1) with 0 by lra. rewrite Rabs_R0. lra.
    + intros H0. apply (Hn c _ Ha). apply norm_zero_dot. exact H0.
  - intros c2 H2. apply (escape_similarity_loc _ _ _ c c2 Hm Hc H2).
Qed.

Lemma self_similarity_one_witness :
  exists m,
    escape_similarity table_end_to_end 1 = Ok m
    /\ labels m = conditions_of (drop_duplicates table_end_to_end)
    /\ forall c, In c (labels m) ->
         (exists s, loc m c c = Some s /\ isclose s 1 1e-9)
         /\ (forall c2, In c2 (labels m) ->
               exists v, loc m c c2 = Some v
                         /\ pair_similarity (drop_duplicates table_end_to_end) 1 c c2
                            = Ok v).
Proof.
  apply (self_similarity_one table_end_to_end 1).
  - repeat constructor; eexists; (split; [reflexivity | simpl; lra]).
  - apply forall_profiles. destruct end_to_end_profiles as [HA HB].
    intros c Hc. unfold table_end_to_end in Hc. cbn in Hc.
    destruct Hc as [<-|[<-|[<-|[<-|[]]]]]; eexists;
      (split; [first [exact HA | exact HB] | left; simpl; lra]).
Defined.

(** C2, counterexample: in the table in which A has an all-zero profile,
    condition B has the profile [1.0], of norm 1, and the loop body gives
    1 for the pair (B, B); but no matrix is returned, the call raises on
    the pair (A, A), so B has no diagonal entry. *)
Lemma self_similarity_needs_every_profile :
  all_finite table_zero
  /\ profile (drop_duplicates table_zero) 1 "B" = Ok [Finite 1]
  /\ norm [Finite 1] = Finite 1
  /\ pair_similarity (drop_duplicates table_zero) 1 "B" "B" = Ok (Finite 1)
  /\ escape_similarity table_zero 1 = Raise AssertionError
  /\ ~ (exists m s, escape_similarity table_zero 1 = Ok m
                    /\ loc m "B" "B" = Some s /\ isclose s 1 1e-9).
Proof.
  destruct zero_profiles as [_ HB].
  assert (E : map Finite [1 ^ 1] = [Finite 1]) by (simpl; do 2 f_equal; lra).
  split; [repeat constructor|].
  split; [rewrite HB, E; reflexivity|].
  split.
  { change [Finite 1] with (map Finite [1]). rewrite norm_finite.
    unfold dot. simpl. replace (1 * 1 + 0) with 1 by lra. rewrite sqrt_1. reflexivity. }
  split.
  { apply (pair_similarity_self _ _ _ [1 ^ 1] HB). unfold dot. simpl. lra. }
  split; [exact table_zero_raises|].
  intros [m [s [Hm _]]]. rewrite table_zero_raises in Hm. discriminate.
Qed.

(** C3: the loop body gives the same result for a pair of conditions
    in either order, so every matrix returned by [escape_similarity] is
    symmetric and has a cell for every pair of its conditions; the matrix
    is returned whenever the values are finite and no profile has norm
    zero. *)
Theorem similarity_symmetric (df : DataFrame) (p : nat) :
  (forall c1 c2,
      pair_similarity (drop_duplicates df) p c1 c2
      = pair_similarity (drop_duplicates df) p c2 c1)
  /\ (forall m, escape_similarity df p = Ok m ->
        forall c1 c2,
          loc m c1 c2 = loc m c2 c1
          /\ (In c1 (labels m) -> In c2 (labels m) ->
              exists v, loc m c1 c2 = Some v))
  /\ (all_finite df ->
      (forall c x, profile (drop_duplicates df) p c = Ok x -> norm x <> Finite 0) ->
      exists m, escape_similarity df p = Ok m).
Proof.
  split; [intros c1 c2; apply pair_similarity_comm|].
  split; [|apply escape_similarity_returns].
  intros m Hm c1 c2. split.
  - destruct (in_dec string_dec c1 (labels m)) as [H1|H1];
      [destruct (in_dec string_dec c2 (labels m)) as [H2|H2]|].
    + destruct (escape_similarity_loc _ _ _ c1 c2 Hm H1 H2) as [v [Hv Hp]].
      destruct (escape_similarity_loc _ _ _ c2 c1 Hm H2 H1) as [w [Hw Hq]].
      rewrite pair_similarity_comm in Hq. congruence.
    + rewrite !loc_notin; tauto.
    + rewrite !loc_notin; tauto.
  - intros H1 H2.
    destruct (escape_similarity_loc _ _ _ c1 c2 Hm H1 H2) as [v [Hv _]]. eauto.
Qed.

Lemma similarity_symmetric_witness :
  let m := mkMatrix ["A"; "B"]%string
             [Finite 1; Finite (1 / sqrt 2); Finite (1 / sqrt 2); Finite 1] in
  escape_similarity table_end_to_end 1 = Ok m
  /\ loc m "A" "B" = loc m "B" "A"
  /\ exists v, loc m "A" "B" = Some v.
Proof.
  destruct (similarity_symmetric table_end_to_end 1) as [_ [Hsym _]].
  destruct (Hsym _ end_to_end_matrix "A"%string "B"%string) as [H1 H2].
  split; [exact end_to_end_matrix|].
  split; [exact H1|].
  apply H2; simpl; auto.
Defined.

(** C8: on a table of finite values, when the profile of a condition has
    norm zero, the loop body raises for every pair that condition is part
    of, and so does [escape_similarity]: no similarity is returned. *)
Theorem zero_norm_raises (df : DataFrame) (p : nat) (c1 c2 : string) (x : list float64) :
  all_finite df ->
  profile (drop_duplicates df) p c1 = Ok x ->
  norm x = Finite 0 ->
  In c2 (conditions_of (drop_duplicates df)) ->
  pair_similarity (drop_duplicates df) p c1 c2 = Raise AssertionError
  /\ pair_similarity (drop_duplicates df) p c2 c1 = Raise AssertionError
  /\ escape_similarity df p = Raise AssertionError.
Proof.
  intros Hf Hx Hn H2.
  pose proof (drop_duplicates_finite df Hf) as Hf'.
  split; [|split].
  - apply (pair_zero_norm _ p c1 c2 x Hf' Hx Hn).
    apply In_conditions_of. exact H2.
  - rewrite pair_similarity_comm.
    apply (pair_zero_norm _ p c1 c2 x Hf' Hx Hn).
    apply In_conditions_of. exact H2.
  - apply (escape_similarity_zero_norm df p c1 x Hf Hx Hn).
Qed.

Lemma zero_norm_raises_witness :
  pair_similarity (drop_duplicates table_zero) 1 "A" "B" = Raise AssertionError
  /\ pair_similarity (drop_duplicates table_zero) 1 "B" "A" = Raise AssertionError
  /\ escape_similarity table_zero 1 = Raise AssertionError.
Proof.
  apply (zero_norm_raises table_zero 1 "A" "B" (map Finite [0 ^ 1])).
  - repeat constructor.
  - unfold table_zero. cbn. eval_profile. reflexivity.
  - apply norm_zero_dot. unfold dot. simpl. lra.
  - simpl. auto.
Defined.

(** ** Zero fill *)

(** C4: the profile of a condition has one entry per site of the site
    universe, the entry is 0 at every site where the condition has no row,
    and (on a finite table) the universe holds every site of every
    condition.  For A observed only at site 1 (2.0) and B only at site 2
    (3.0) the profiles are [2, 0] and [0, 3], and the similarity of A and B
    is 0, for every exponent. *)
Theorem missing_sites_filled :
  (forall df p c x,
      profile df p c = Ok x ->
      List.length x = List.length (site_universe df p)
      /\ forall i s, nth_error (site_universe df p) i = Some s ->
                     ~ In (s, c) (map row_key df) ->
                     nth_error x i = Some (Finite 0))
  /\ (forall df p s, all_finite df -> In s (map site df) -> In s (site_universe df p))
  /\ site_universe table_disjoint 1 = [1%Z; 2%Z]
  /\ profile table_disjoint 1 "A" = Ok [Finite 2; Finite 0]
  /\ profile table_disjoint 1 "B" = Ok [Finite 0; Finite 3]
  /\ (forall p, exists m,
         escape_similarity table_disjoint p = Ok m
         /\ loc m "A" "B" = Some (Finite 0)).
Proof.
  split; [exact profile_fill|].
  split; [exact site_in_universe|].
  split; [unfold site_universe, table_disjoint; eval_profile; reflexivity|].
  split.
  { unfold table_disjoint. eval_profile.
    replace (2 * 1) with 2 by lra. reflexivity. }
  split.
  { unfold table_disjoint. eval_profile.
    replace (3 * 1) with 3 by lra. reflexivity. }
  intros p. eexists. split; [apply disjoint_matrix | reflexivity].
Qed.

Lemma missing_sites_filled_witness :
  nth_error [Finite 2; Finite 0] 1 = Some (Finite 0)
  /\ In 2%Z (site_universe table_disjoint 1).
Proof.
  destruct missing_sites_filled as [Hfill [Huniv [Hu [HA _]]]].
  split.
  - destruct (Hfill table_disjoint 1%nat "A"%string _ HA) as [_ H].
    apply (H 1%nat 2%Z).
    + rewrite Hu. reflexivity.
    + simpl. intros [H1|[H1|[]]]; discriminate H1.
  - apply Huniv.
    + repeat constructor.
    + simpl. auto.
Defined.

(** ** The exponent *)

(** C9: for the profiles [0.9, 0.1] and [0.1, 0.9] the similarity of A
    and B is 9/41 at [p = 1], 81/3281 at [p = 2] and 729/265721 at [p = 3];
    it is positive and strictly decreasing in [p] (for every [p]), and
    tends to 0. *)
Theorem exponent_emphasis :
  (forall p, exists m,
      escape_similarity table_emphasis p = Ok m
      /\ loc m "A" "B" = Some (Finite (emphasis_similarity p)))
  /\ emphasis_similarity 1 = 9 / 41
  /\ emphasis_similarity 2 = 81 / 3281
  /\ emphasis_similarity 3 = 729 / 265721
  /\ emphasis_similarity 3 < emphasis_similarity 2 < emphasis_similarity 1
  /\ (forall p, 0 < emphasis_similarity p
                /\ emphasis_similarity (S p) < emphasis_similarity p)
  /\ (forall eps, 0 < eps ->
        exists N, forall p, (N <= p)%nat -> emphasis_similarity p < eps).
Proof.
  split.
  { intros p. eexists. split; [apply emphasis_matrix | reflexivity]. }
  split; [rewrite emphasis_closed_form; simpl; field|].
  split; [rewrite emphasis_closed_form; simpl; field|].
  split; [rewrite emphasis_closed_form; simpl; field|].
  split; [split; apply emphasis_decreasing|].
  split; [intros p; split; [apply emphasis_pos | apply emphasis_decreasing]|].
  exact emphasis_limit.
Qed.

(** ** The per-plot loop *)

(** C7: when a condition the plot asks for has no row in the table of
    escape fractions, the loop body raises (the assertion that the wanted
    conditions are a subset of the table's); no matrix is produced. *)
Theorem absent_condition_raises (escape_fracs : DataFrame) (conds : dict)
        (method c : string) :
  In c (keys conds) ->
  ~ In c (map condition escape_fracs) ->
  mds_matrices escape_fracs conds method = Raise AssertionError.
Proof.
  intros Hc Hnot. unfold mds_matrices.
  destruct (Nat.eqb _ _); simpl; [|reflexivity].
  assert (E : forallb (fun c => isin c (map condition escape_fracs)) (keys conds) = false).
  { apply not_true_is_false. intros H. rewrite forallb_forall in H.
    apply Hnot. apply isin_In. apply H. exact Hc. }
  rewrite E. reflexivity.
Qed.

Lemma absent_condition_raises_witness :
  mds_matrices table_end_to_end [("A", "A"); ("C", "C")]%string "one_minus"
  = Raise AssertionError.
Proof.
  apply (absent_condition_raises table_end_to_end _ _ "C").
  - simpl. auto.
  - simpl. intros [H|[H|[H|[H|[]]]]]; discriminate H.
Defined.

(** C6, as the code has it: for every method name other than
    ['one_minus'] and ['minus_log'] the transform raises [ValueError].  In
    the loop body the name is not looked at before the similarities are
    computed: once the two assertions on the configuration hold, the
    result is that of [escape_similarity] if it raises, and otherwise the
    [ValueError] of the first cell (or no error when there is no cell). *)
Theorem invalid_method_raises (method : string) :
  method <> "one_minus"%string ->
  method <> "minus_log"%string ->
  (forall s, dissimilarity s method
             = Raise (ValueError ("invalid `method` " ++ method)))
  /\ (forall escape_fracs conds,
        List.length (keys conds) = List.length (unique String.eqb (values conds)) ->
        (forall c, In c (keys conds) -> In c (map condition escape_fracs)) ->
        mds_matrices escape_fracs conds method
        = (m <- escape_similarity (plot_table escape_fracs conds) 1 ;;
           match data m with
           | [] => Ok (m, mkMatrix (labels m) [])
           | _ :: _ => Raise (ValueError ("invalid `method` " ++ method))
           end)).
Proof.
  intros H1 H2.
  assert (Hd : forall s, dissimilarity s method
                         = Raise (ValueError ("invalid `method` " ++ method))).
  { intros s. unfold dissimilarity.
    apply String.eqb_neq in H1, H2. rewrite H1, H2. reflexivity. }
  split; [exact Hd|].
  intros ef conds Hlen Hsub. unfold mds_matrices.
  rewrite Hlen, Nat.eqb_refl. simpl.
  assert (E : forallb (fun c => isin c (map condition ef)) (keys conds) = true).
  { apply forallb_forall. intros c Hc. apply isin_In. apply Hsub. exact Hc. }
  rewrite E. simpl.
  destruct (escape_similarity (plot_table ef conds) 1) as [m|e]; simpl; [|reflexivity].
  unfold applymap. destruct (data m) as [|v vs]; simpl; [reflexivity|].
  rewrite Hd. reflexivity.
Qed.

Lemma invalid_method_raises_witness :
  dissimilarity (Finite 1) "euclidean"
  = Raise (ValueError "invalid `method` euclidean")
  /\ mds_matrices table_end_to_end [("A", "A"); ("B", "B")]%string "euclidean"
     = Raise (ValueError "invalid `method` euclidean").
Proof.
  destruct (invalid_method_raises "euclidean") as [Hd Hm];
    [discriminate | discriminate |].
  split; [apply Hd|].
  rewrite Hm.
  - change (plot_table table_end_to_end [("A", "A"); ("B", "B")]%string)
      with table_end_to_end.
    rewrite end_to_end_matrix. reflexivity.
  - reflexivity.
  - simpl. intros c [<-|[<-|[]]]; auto.
Defined.

(** C6, counterexample: with an invalid method name and a table in which
    condition A has an all-zero profile, the loop body raises the
    [AssertionError] of the similarity computation, not the [ValueError] of
    the method name: the similarities are computed before the name is
    looked at. *)
Lemma invalid_method_not_checked_first :
  dissimilarity (Finite 1) "euclidean"
  = Raise (ValueError "invalid `method` euclidean")
  /\ mds_matrices table_zero [("A", "A"); ("B", "B")]%string "euclidean"
     = Raise AssertionError.
Proof.
  split; [reflexivity|].
  unfold mds_matrices. simpl.
  change (plot_table table_zero [("A", "A"); ("B", "B")]%string) with table_zero.
  rewrite table_zero_raises. reflexivity.
Qed.

(** ** Conflicting rows *)










(** * Further properties of the notebook *)

(** ** Shape of the similarity matrix *)

Section UniqueMap.
Context {A B : Type} (eqA : A -> A -> bool) (eqB : B -> B -> bool) (f : A -> B).
Hypothesis eqA_spec : forall a b, eqA a b = true <-> a = b.
Hypothesis eqB_spec : forall a b, eqB a b = true <-> a = b.

(** Removing repeated elements before projecting does not change the
    distinct projections, nor their order of first appearance. *)
Lemma unique_map_unique (l : list A) :
  unique eqB (map f (unique eqA l)) = unique eqB (map f l).
Proof.
  induction l as [|a l IH]; simpl; [reflexivity|].
  f_equal. rewrite <- IH.
  rewrite !(filter_unique eqB eqB_spec). f_equal.
  generalize (unique eqA l). intros u.
  induction u as [|b u IHu]; simpl; [reflexivity|].
  destruct (eqA a b) eqn:E; simpl.
  - apply eqA_spec in E. subst b.
    rewrite (proj2 (eqB_spec (f a) (f a)) eq_refl). simpl. exact IHu.
  - destruct (eqB (f a) (f b)); simpl; rewrite IHu; reflexivity.
Qed.

End UniqueMap.

Lemma row_eqb_eq (r1 r2 : row) : row_eqb r1 r2 = true <-> r1 = r2.
Proof.
  destruct r1 as [c1 s1 v1], r2 as [c2 s2 v2]. unfold row_eqb. simpl.
  rewrite !andb_true_iff, String.eqb_eq, Z.eqb_eq, float_eqb_eq. split.
  - intros [[-> ->] ->]. reflexivity.
  - intros H. inversion H. auto.
Qed.

Lemma drop_duplicates_conditions (df : DataFrame) :
  conditions_of (drop_duplicates df) = conditions_of df.
Proof.
  unfold conditions_of, drop_duplicates.
  apply (unique_map_unique row_eqb String.eqb condition row_eqb_eq String.eqb_eq).
Qed.

Lemma mapM_length {A B : Type} (f : A -> result B) (l : list A) (ys : list B) :
  mapM f l = Ok ys -> List.length ys = List.length l.
Proof.
  revert ys. induction l as [|a l IH]; intros ys H; simpl in H.
  - inversion H. reflexivity.
  - destruct (f a) as [b|e]; simpl in H; [|discriminate].
    destruct (mapM f l) as [bs|e]; simpl in H; [|discriminate].
    inversion H. simpl. f_equal. apply IH. reflexivity.
Qed.

(** X1: whenever [escape_similarity] returns, the matrix is labelled by
    the distinct conditions of the table it was given, in order of first
    appearance and without repetition (so the assertion of the loop that
    compares [df['condition'].unique()] with the labels cannot fail), and
    it holds one value per ordered pair of labels. *)
Theorem similarity_matrix_shape (df : DataFrame) (p : nat) (m : Matrix) :
  escape_similarity df p = Ok m ->
  labels m = unique String.eqb (map condition df)
  /\ NoDup (labels m)
  /\ List.length (data m) = (List.length (labels m) * List.length (labels m))%nat
  /\ (forall i j, (i < List.length (labels m))%nat -> (j < List.length (labels m))%nat ->
                  exists v, iloc m i j = Some v).
Proof.
  intros Hm. destruct (escape_similarity_Ok _ _ _ Hm) as [Hl Hd].
  assert (Hlab : labels m = unique String.eqb (map condition df)).
  { rewrite Hl. apply drop_duplicates_conditions. }
  assert (Hlen : List.length (data m)
                 = (List.length (labels m) * List.length (labels m))%nat).
  { rewrite (mapM_length _ _ _ Hd). apply length_prod. }
  split; [exact Hlab|]. split.
  - rewrite Hlab. apply (NoDup_unique String.eqb String.eqb_eq).
  - split; [exact Hlen|].
    intros i j Hi Hj. unfold iloc.
    apply Nat.ltb_lt in Hj as Hj'. rewrite Hj'.
    destruct (nth_error (data m) (i * List.length (labels m) + j)) as [v|] eqn:E;
      [eauto|].
    apply nth_error_None in E. rewrite Hlen in E. nia.
Qed.

Lemma similarity_matrix_shape_witness :
  let m := mkMatrix ["A"; "B"]%string
             [Finite 1; Finite (1 / sqrt 2); Finite (1 / sqrt 2); Finite 1] in
  labels m = unique String.eqb (map condition table_end_to_end)
  /\ NoDup (labels m)
  /\ List.length (data m) = (List.length (labels m) * List.length (labels m))%nat
  /\ (forall i j, (i < List.length (labels m))%nat -> (j < List.length (labels m))%nat ->
                  exists v, iloc m i j = Some v).
Proof.
  exact (similarity_matrix_shape table_end_to_end 1 _ end_to_end_matrix).
Defined.

(** ** Missing values *)

(** X2: a missing metric value in any row makes [escape_similarity] raise
    [AssertionError], whatever the exponent and the other rows: removing
    duplicate rows never removes the last row with a missing value. *)
Theorem null_metric_raises (df : DataFrame) (p : nat) (r : row) :
  In r df ->
  metric r = NaN ->
  escape_similarity df p = Raise AssertionError.
Proof.
  intros Hin Hnan. unfold escape_similarity.
  assert (E : isnull_any (drop_duplicates df) = true).
  { unfold isnull_any. apply existsb_exists. exists r. split.
    - unfold drop_duplicates. apply (proj2 (In_unique row_eqb row_eqb_eq _ _)).
      exact Hin.
    - rewrite Hnan. reflexivity. }
  rewrite E. reflexivity.
Qed.

Lemma null_metric_raises_witness :
  escape_similarity (table_end_to_end ++ [mkRow "C" 1 NaN]) 3 = Raise AssertionError.
Proof.
  apply (null_metric_raises _ 3 (mkRow "C" 1 NaN)).
  - apply in_or_app. right. left. reflexivity.
  - reflexivity.
Defined.

(** ** The two transforms *)

(** X3: neither transform gives a larger dissimilarity for a larger
    similarity (for ['minus_log'], on positive similarities); on
    similarities up to 1 neither is negative, on similarities from 0 on
    ['one_minus'] is at most 1, and both send 1 to 0. *)
Theorem dissimilarity_decreasing (s1 s2 : R) :
  s1 <= s2 ->
  (exists d1 d2,
      dissimilarity (Finite s1) "one_minus" = Ok (Finite d1)
      /\ dissimilarity (Finite s2) "one_minus" = Ok (Finite d2)
      /\ d2 <= d1
      /\ (s2 <= 1 -> 0 <= d2)
      /\ (0 <= s1 -> d1 <= 1))
  /\ (0 < s1 ->
      exists d1 d2,
        dissimilarity (Finite s1) "minus_log" = Ok (Finite d1)
        /\ dissimilarity (Finite s2) "minus_log" = Ok (Finite d2)
        /\ d2 <= d1
        /\ (s2 <= 1 -> 0 <= d2))
  /\ dissimilarity (Finite 1) "one_minus" = Ok (Finite 0)
  /\ dissimilarity (Finite 1) "minus_log" = Ok (Finite 0).
Proof.
  intros Hle. split; [|split; [|split]].
  - exists (1 - s1), (1 - s2). repeat split; try reflexivity; lra.
  - intros Hpos. exists (- ln s1), (- ln s2).
    unfold dissimilarity. simpl.
    rewrite !Rltb_true by lra. repeat split.
    + destruct (Req_dec s1 s2) as [->|Hne]; [lra|].
      pose proof (ln_increasing s1 s2 Hpos ltac:(lra)). lra.
    + intros H1. destruct (Req_dec s2 1) as [->|Hne].
      * rewrite ln_1. lra.
      * pose proof (ln_increasing s2 1 ltac:(lra) ltac:(lra)) as H.
        rewrite ln_1 in H. lra.
  - unfold dissimilarity. simpl. do 2 f_equal. lra.
  - unfold dissimilarity. simpl. rewrite Rltb_true by lra.
    rewrite ln_1. simpl. do 2 f_equal. lra.
Qed.

Lemma dissimilarity_decreasing_witness :
  (exists d1 d2,
      dissimilarity (Finite (1/2)) "one_minus" = Ok (Finite d1)
      /\ dissimilarity (Finite 1) "one_minus" = Ok (Finite d2)
      /\ d2 <= d1
      /\ (1 <= 1 -> 0 <= d2)
      /\ (0 <= 1/2 -> d1 <= 1))
  /\ (0 < 1/2 ->
      exists d1 d2,
        dissimilarity (Finite (1/2)) "minus_log" = Ok (Finite d1)
        /\ dissimilarity (Finite 1) "minus_log" = Ok (Finite d2)
        /\ d2 <= d1
        /\ (1 <= 1 -> 0 <= d2))
  /\ dissimilarity (Finite 1) "one_minus" = Ok (Finite 0)
  /\ dissimilarity (Finite 1) "minus_log" = Ok (Finite 0).
Proof.
  apply (dissimilarity_decreasing (1/2) 1). lra.
Defined.

(** ** Range of the similarities *)

Lemma dot_cauchy_schwarz (a b : list R) :
  dot a b * dot a b <= dot a a * dot b b.
Proof.
  revert b. induction a as [|x a IH]; intros b.
  - unfold dot. simpl. lra.
  - destruct b as [|y b].
    + unfold dot at 1 2. simpl.
      pose proof (Rsum_squares_nonneg (x :: a)) as H. rewrite <- dot_self in H.
      unfold dot at 2. simpl. lra.
    + specialize (IH b).
      pose proof (Rsum_squares_nonneg a) as HA. rewrite <- dot_self in HA.
      pose proof (Rsum_squares_nonneg b) as HB. rewrite <- dot_self in HB.
      assert (E1 : dot (x :: a) (y :: b) = x * y + dot a b) by reflexivity.
      assert (E2 : dot (x :: a) (x :: a) = x * x + dot a a) by reflexivity.
      assert (E3 : dot (y :: b) (y :: b) = y * y + dot b b) by reflexivity.
      rewrite E1, E2, E3.
      set (S := dot a b) in *. set (A := dot a a) in *. set (B := dot b b) in *.
      (* 2 x y S <= x^2 B + y^2 A, from S^2 <= A B *)
      assert (Hmix : 2 * (x * y) * S <= x * x * B + y * y * A).
      { destruct (Rle_dec (2 * (x * y) * S) 0) as [Hneg|Hpos].
        - nra.
        - apply Rnot_le_lt in Hpos.
          apply Rsqr_incr_0_var; [|nra].
          unfold Rsqr.
          assert (4 * (x * x) * (y * y) * (S * S) <= 4 * (x * x) * (y * y) * (A * B)).
          { apply Rmult_le_compat_l; [nra | exact IH]. }
          pose proof (Rle_0_sqr (x * x * B - y * y * A)) as Hsq. unfold Rsqr in Hsq.
          replace (2 * (x * y) * S * (2 * (x * y) * S))
            with (4 * (x * x) * (y * y) * (S * S)) by ring.
          replace ((x * x * B + y * y * A) * (x * x * B + y * y * A))
            with ((x * x * B - y * y * A) * (x * x * B - y * y * A)
                  + 4 * (x * x) * (y * y) * (A * B)) by ring.
          lra. }
      nra.
Qed.

Lemma cosine_range (a b : list R) :
  dot a a <> 0 -> dot b b <> 0 -> -1 <= cosine a b <= 1.
Proof.
  intros Ha Hb.
  pose proof (Rsum_squares_nonneg a) as HA. rewrite <- dot_self in HA.
  pose proof (Rsum_squares_nonneg b) as HB. rewrite <- dot_self in HB.
  pose proof (sqrt_sqrt _ HA) as Ea. pose proof (sqrt_sqrt _ HB) as Eb.
  pose proof (sqrt_pos (dot a a)) as Pa. pose proof (sqrt_pos (dot b b)) as Pb.
  pose proof (dot_cauchy_schwarz a b) as CS.
  set (na := sqrt (dot a a)) in *. set (nb := sqrt (dot b b)) in *.
  assert (Hna : 0 < na) by nra. assert (Hnb : 0 < nb) by nra.
  assert (Hn : 0 < na * nb) by nra.
  assert (Hsq : dot a b * dot a b <= (na * nb) * (na * nb)) by nra.
  assert (Habs : - (na * nb) <= dot a b <= na * nb) by (split; nra).
  unfold cosine. fold na nb. split.
  - apply Rmult_le_reg_r with (r := na * nb); [exact Hn|].
    replace (dot a b / (na * nb) * (na * nb)) with (dot a b) by (field; lra). lra.
  - apply Rmult_le_reg_r with (r := na * nb); [exact Hn|].
    replace (dot a b / (na * nb) * (na * nb)) with (dot a b) by (field; lra). lra.
Qed.

Lemma dot_nonneg (a b : list R) :
  Forall (fun x => 0 <= x) a -> Forall (fun x => 0 <= x) b -> 0 <= dot a b.
Proof.
  intros Ha. revert b. induction Ha as [|x a Hx _ IH]; intros b Hb.
  - unfold dot. simpl. lra.
  - destruct Hb as [|y b Hy Hb]; [unfold dot; simpl; lra|].
    change (dot (x :: a) (y :: b)) with (x * y + dot a b).
    specialize (IH b Hb). nra.
Qed.

Lemma cosine_nonneg (a b : list R) :
  Forall (fun x => 0 <= x) a -> Forall (fun x => 0 <= x) b -> 0 <= cosine a b.
Proof.
  intros Ha Hb. unfold cosine.
  pose proof (dot_nonneg a b Ha Hb).
  pose proof (sqrt_pos (dot a a)). pose proof (sqrt_pos (dot b b)).
  destruct (Req_dec (sqrt (dot a a) * sqrt (dot b b)) 0) as [E|E].
  - rewrite E. unfold Rdiv. rewrite Rinv_0. lra.
  - apply Rmult_le_pos; [assumption|]. apply Rlt_le, Rinv_0_lt_compat. nra.
Qed.

Lemma nonnegative_finite (df : DataFrame) : nonnegative df -> all_finite df.
Proof.
  unfold nonnegative, all_finite. apply Forall_impl.
  intros r [v [Hv _]]. rewrite Hv. reflexivity.
Qed.

Lemma Rsum_nonneg (l : list R) : Forall (fun x => 0 <= x) l -> 0 <= Rsum l.
Proof. induction 1 as [|x l Hx _ IH]; simpl; lra. Qed.

Lemma assign_metric_nonnegative (p : nat) (df : DataFrame) :
  nonnegative df -> nonnegative (assign_metric p df).
Proof.
  unfold nonnegative, assign_metric. intros H. apply Forall_map.
  eapply Forall_impl; [|exact H]. intros r [v [Hv Hpos]]. simpl.
  rewrite Hv, pow_finite. exists (v ^ p). split; [reflexivity | apply pow_le; exact Hpos].
Qed.

Lemma drop_duplicates_nonnegative (df : DataFrame) :
  nonnegative df -> nonnegative (drop_duplicates df).
Proof.
  unfold nonnegative, drop_duplicates. rewrite !Forall_forall.
  intros H r Hr. apply H. eapply unique_subset. exact Hr.
Qed.

Lemma cell_nonnegative (d : DataFrame) (c : string) (s : Z) :
  nonnegative d ->
  exists v, cell (dropna (agg_mean d)) (Finite 0) c s = Finite v /\ 0 <= v.
Proof.
  intros Hn. pose proof (nonnegative_finite d Hn) as Hf. unfold cell.
  destruct (lookup (s, c) (dropna (agg_mean d))) as [v|] eqn:E;
    [|exists 0; split; [reflexivity | lra]].
  apply lookup_Some in E. rewrite dropna_finite in E by exact Hf.
  unfold agg_mean in E. apply in_map_iff in E. destruct E as [k [Hk Hin]].
  inversion Hk; subst. clear Hk.
  apply (proj1 (In_unique key_eqb key_eqb_eq _ _)) in Hin.
  rewrite mean_finite by (apply group_finite || apply group_nonempty; assumption).
  eexists. split; [reflexivity|].
  apply Rmult_le_pos.
  - apply Rsum_nonneg. apply Forall_map. apply Forall_forall. intros x Hx.
    unfold group in Hx. apply in_map_iff in Hx. destruct Hx as [r [<- Hr]].
    apply filter_In in Hr. destruct Hr as [Hr _].
    unfold nonnegative in Hn. rewrite Forall_forall in Hn.
    destruct (Hn r Hr) as [v [-> Hv]]. exact Hv.
  - apply Rlt_le, Rinv_0_lt_compat. apply lt_0_INR.
    pose proof (group_nonempty d (s, c) Hin) as Hne.
    destruct (group d (s, c)); [congruence | simpl; lia].
Qed.

Lemma profile_nonnegative (df : DataFrame) (p : nat) (c : string) (a : list R) :
  nonnegative df -> profile df p c = Ok (map Finite a) ->
  Forall (fun x => 0 <= x) a.
Proof.
  intros Hn. unfold profile. rewrite get_column_pivot.
  destruct (isin c _); [|discriminate]. intros H. injection H as H.
  apply Forall_forall. intros x Hx.
  assert (Hin : In (Finite x) (map Finite a)) by (apply in_map; exact Hx).
  rewrite <- H in Hin. apply in_map_iff in Hin. destruct Hin as [s [Hs _]].
  destruct (cell_nonnegative (assign_metric p df) c s
              (assign_metric_nonnegative p df Hn)) as [v [Hv Hpos]].
  rewrite Hv in Hs. inversion Hs. subst. exact Hpos.
Qed.

(** The value of a cell on a finite table: the normalised dot product of
    two profiles of non-zero norm. *)
Lemma pair_similarity_cosine (d : DataFrame) (p : nat) (c1 c2 : string) (v : float64) :
  all_finite d ->
  In c1 (map condition d) -> In c2 (map condition d) ->
  pair_similarity d p c1 c2 = Ok v ->
  exists a b,
    profile d p c1 = Ok (map Finite a) /\ profile d p c2 = Ok (map Finite b)
    /\ dot a a <> 0 /\ dot b b <> 0 /\ v = Finite (cosine a b).
Proof.
  intros Hf H1 H2 Hv.
  destruct (profile_exists d p c1 Hf H1) as [a [Ha Hane]].
  destruct (profile_exists d p c2 Hf H2) as [b [Hb Hbne]].
  assert (Hbne' : map Finite b <> []) by (destruct b; [congruence | discriminate]).
  assert (Hane' : map Finite a <> []) by (destruct a; [congruence | discriminate]).
  destruct (Req_dec (dot a a) 0) as [Za|Za].
  { rewrite (pair_similarity_zero_norm d p c1 c2 a _ Ha Hb Za Hane Hbne') in Hv.
    discriminate. }
  destruct (Req_dec (dot b b) 0) as [Zb|Zb].
  { rewrite pair_similarity_comm in Hv.
    rewrite (pair_similarity_zero_norm d p c2 c1 b _ Hb Ha Zb Hbne Hane') in Hv.
    discriminate. }
  rewrite (pair_similarity_finite d p c1 c2 a b Ha Hb Za Zb) in Hv.
  inversion Hv. exists a, b. auto.
Qed.

(** X4: on a table of finite values every cell of the returned matrix is
    a finite number between -1 and 1, up to the tolerance 1e-9 that
    rounding calls for, and it is not negative when no metric value is
    negative. *)
Theorem similarity_range (df : DataFrame) (p : nat) (m : Matrix) (c1 c2 : string) :
  all_finite df ->
  escape_similarity df p = Ok m ->
  In c1 (labels m) -> In c2 (labels m) ->
  exists s, loc m c1 c2 = Some (Finite s)
            /\ - (1 + 1e-9) <= s <= 1 + 1e-9
            /\ (nonnegative df -> 0 <= s).
Proof.
  intros Hf Hm H1 H2.
  pose proof (drop_duplicates_finite df Hf) as Hf'.
  destruct (escape_similarity_loc _ _ _ c1 c2 Hm H1 H2) as [v [Hv Hp]].
  destruct (escape_similarity_Ok _ _ _ Hm) as [Hl _]. rewrite Hl in H1, H2.
  apply In_conditions_of in H1, H2.
  destruct (pair_similarity_cosine _ p c1 c2 v Hf' H1 H2 Hp)
    as [a [b [Ha [Hb [Za [Zb ->]]]]]].
  exists (cosine a b). split; [exact Hv|]. split.
  - pose proof (cosine_range a b Za Zb). lra.
  - intros Hn. pose proof (drop_duplicates_nonnegative df Hn) as Hn'.
    apply cosine_nonneg; eapply profile_nonnegative; eassumption.
Qed.

Lemma similarity_range_witness :
  exists s,
    loc (mkMatrix ["A"; "B"]%string
           [Finite 1; Finite (1 / sqrt 2); Finite (1 / sqrt 2); Finite 1]) "A" "B"
    = Some (Finite s)
    /\ - (1 + 1e-9) <= s <= 1 + 1e-9
    /\ (nonnegative table_end_to_end -> 0 <= s).
Proof.
  apply (similarity_range table_end_to_end 1 _ "A" "B").
  - repeat constructor.
  - exact end_to_end_matrix.
  - simpl. auto.
  - simpl. auto.
Defined.

(** ** The matrices of one plot *)

Lemma loc_symmetric (df : DataFrame) (p : nat) (m : Matrix) (c1 c2 : string) :
  escape_similarity df p = Ok m ->
  In c1 (labels m) -> In c2 (labels m) ->
  loc m c1 c2 = loc m c2 c1.
Proof.
  intros Hm H1 H2.
  destruct (escape_similarity_loc _ _ _ c1 c2 Hm H1 H2) as [v [Hv Hp]].
  destruct (escape_similarity_loc _ _ _ c2 c1 Hm H2 H1) as [w [Hw Hq]].
  rewrite pair_similarity_comm in Hq. congruence.
Qed.

Lemma loc_diagonal (df : DataFrame) (p : nat) (m : Matrix) (c : string) :
  all_finite df ->
  escape_similarity df p = Ok m ->
  In c (labels m) ->
  loc m c c = Some (Finite 1).
Proof.
  intros Hf Hm Hc. pose proof (drop_duplicates_finite df Hf) as Hf'.
  destruct (escape_similarity_loc _ _ _ c c Hm Hc Hc) as [v [Hv Hp]].
  destruct (escape_similarity_Ok _ _ _ Hm) as [Hl _]. rewrite Hl in Hc.
  apply In_conditions_of in Hc.
  destruct (pair_similarity_cosine _ p c c v Hf' Hc Hc Hp)
    as [a [b [Ha [Hb [Za [Zb ->]]]]]].
  rewrite (pair_similarity_self _ _ _ _ Ha Za) in Hp. congruence.
Qed.

Lemma mapM_total {A B : Type} (g : A -> B) (l : list A) :
  mapM (fun x => Ok (g x)) l = Ok (map g l).
Proof. induction l as [|a l IH]; simpl; [reflexivity | rewrite IH; reflexivity]. Qed.

Lemma applymap_one_minus (m : Matrix) :
  applymap (fun x => dissimilarity x "one_minus") m
  = Ok (mkMatrix (labels m) (map (Float.sub (Finite 1)) (data m))).
Proof.
  unfold applymap.
  change (fun x => dissimilarity x "one_minus")
    with (fun x => @Ok float64 (Float.sub (Finite 1) x)).
  rewrite mapM_total. reflexivity.
Qed.

Lemma loc_map (g : float64 -> float64) (m : Matrix) (c1 c2 : string) :
  loc (mkMatrix (labels m) (map g (data m))) c1 c2 = option_map g (loc m c1 c2).
Proof.
  unfold loc, iloc. simpl.
  destruct (index_of String.eqb c1 (labels m)); [|reflexivity].
  destruct (index_of String.eqb c2 (labels m)); [|reflexivity].
  destruct (Nat.ltb _ _); [|reflexivity].
  apply nth_error_map.
Qed.

Lemma plot_table_nonnegative (escape_fracs : DataFrame) (conds : dict) :
  nonnegative escape_fracs -> nonnegative (plot_table escape_fracs conds).
Proof.
  unfold nonnegative, plot_table, rename_conditions, query_isin.
  intros H. apply Forall_map. apply Forall_forall. intros r Hr.
  apply filter_In in Hr. destruct Hr as [Hr _].
  rewrite Forall_forall in H. exact (H r Hr).
Qed.

Lemma mds_matrices_Ok (escape_fracs : DataFrame) (conds : dict) (method : string)
      (sm dm : Matrix) :
  mds_matrices escape_fracs conds method = Ok (sm, dm) ->
  List.length (keys conds) = List.length (unique String.eqb (values conds))
  /\ (forall c, In c (keys conds) -> In c (map condition escape_fracs))
  /\ escape_similarity (plot_table escape_fracs conds) 1 = Ok sm
  /\ applymap (fun x => dissimilarity x method) sm = Ok dm.
Proof.
  unfold mds_matrices.
  destruct (Nat.eqb _ _) eqn:E1; simpl; [|discriminate].
  destruct (forallb _ _) eqn:E2; simpl; [|discriminate].
  destruct (escape_similarity _ 1) as [m|e] eqn:E3; simpl; [|discriminate].
  destruct (applymap _ m) as [d|e] eqn:E4; simpl; [|discriminate].
  intros H. inversion H; subst.
  split; [apply Nat.eqb_eq; exact E1|].
  split; [|split; [reflexivity | exact E4]].
  intros c Hc. rewrite forallb_forall in E2. apply isin_In. apply E2. exact Hc.
Qed.

(** X5: with the method the notebook uses (['one_minus']) and a table
    whose values are in range, the dissimilarity matrix handed on to the
    scaling has the labels of the similarity matrix, every cell is
    [1 - similarity] and is at most 1 and, up to the tolerance 1e-9 that
    rounding calls for, not negative; the matrix is symmetric, and its
    diagonal is 0 up to that tolerance. *)
Theorem dissimilarity_matrix_valid (escape_fracs : DataFrame) (conds : dict)
        (sm dm : Matrix) (c1 c2 : string) :
  in_range 1 escape_fracs ->
  mds_matrices escape_fracs conds dissimilarity_method = Ok (sm, dm) ->
  In c1 (labels sm) -> In c2 (labels sm) ->
  labels dm = labels sm
  /\ (exists s d, loc sm c1 c2 = Some (Finite s)
                  /\ loc dm c1 c2 = Some (Finite d)
                  /\ d = 1 - s /\ - 1e-9 <= d <= 1
                  /\ loc dm c2 c1 = Some (Finite d))
  /\ (exists d, loc dm c1 c1 = Some (Finite d) /\ Rabs d <= 1e-9).
Proof.
  intros Hr Hm H1 H2.
  pose proof (in_range_nonnegative 1 escape_fracs Hr) as Hn.
  apply mds_matrices_Ok in Hm. destruct Hm as [_ [_ [Hs Hd]]].
  unfold dissimilarity_method in Hd. rewrite applymap_one_minus in Hd.
  inversion Hd; subst dm. clear Hd.
  pose proof (plot_table_nonnegative escape_fracs conds Hn) as Hn'.
  pose proof (nonnegative_finite _ Hn') as Hf.
  split; [reflexivity|]. rewrite !loc_map. split.
  - rewrite <- (loc_symmetric _ _ _ c1 c2 Hs H1 H2).
    destruct (escape_similarity_loc _ _ _ c1 c2 Hs H1 H2) as [v [Hv Hp]].
    rewrite Hv. simpl.
    destruct (escape_similarity_Ok _ _ _ Hs) as [Hl _].
    assert (H1' := H1). assert (H2' := H2). rewrite Hl in H1', H2'.
    apply In_conditions_of in H1', H2'.
    destruct (pair_similarity_cosine _ 1 c1 c2 v
                (drop_duplicates_finite _ Hf) H1' H2' Hp)
      as [a [b [Ha [Hb [Za [Zb ->]]]]]].
    pose proof (cosine_range a b Za Zb) as Hrg.
    pose proof (drop_duplicates_nonnegative _ Hn') as Hn''.
    pose proof (cosine_nonneg a b (profile_nonnegative _ _ _ _ Hn'' Ha)
                              (profile_nonnegative _ _ _ _ Hn'' Hb)) as Hpos.
    exists (cosine a b), (1 - cosine a b). simpl.
    repeat split; try reflexivity; lra.
  - rewrite (loc_diagonal _ _ _ c1 Hf Hs H1). simpl.
    exists (1 + - 1). split; [reflexivity|].
    replace (1 + - 1) with 0 by lra. rewrite Rabs_R0. lra.
Qed.

Lemma dissimilarity_matrix_valid_witness :
  exists sm dm,
    mds_matrices table_end_to_end [("A", "A"); ("B", "B")]%string dissimilarity_method
    = Ok (sm, dm)
    /\ labels dm = labels sm
    /\ (exists s d, loc sm "A" "B" = Some (Finite s)
                    /\ loc dm "A" "B" = Some (Finite d)
                    /\ d = 1 - s /\ - 1e-9 <= d <= 1
                    /\ loc dm "B" "A" = Some (Finite d))
    /\ (exists d, loc dm "A" "A" = Some (Finite d) /\ Rabs d <= 1e-9).
Proof.
  assert (Hm : mds_matrices table_end_to_end [("A", "A"); ("B", "B")]%string
                            dissimilarity_method
               = Ok (mkMatrix ["A"; "B"]%string
                       [Finite 1; Finite (1 / sqrt 2); Finite (1 / sqrt 2); Finite 1],
                     mkMatrix ["A"; "B"]%string
                       (map (Float.sub (Finite 1))
                            [Finite 1; Finite (1 / sqrt 2);
                             Finite (1 / sqrt 2); Finite 1]))).
  { unfold mds_matrices. simpl.
    change (plot_table table_end_to_end [("A", "A"); ("B", "B")]%string)
      with table_end_to_end.
    rewrite end_to_end_matrix. reflexivity. }
  eexists. eexists. split; [exact Hm|].
  apply (dissimilarity_matrix_valid table_end_to_end
           [("A", "A"); ("B", "B")]%string _ _ "A" "B").
  - repeat constructor; eexists; (split; [reflexivity | simpl; lra]).
  - exact Hm.
  - simpl. auto.
  - simpl. auto.
Defined.

(** ** Labels of a plot *)

Lemma filter_length_le {A : Type} (f : A -> bool) (l : list A) :
  (List.length (filter f l) <= List.length l)%nat.
Proof. induction l as [|a l IH]; simpl; [lia | destruct (f a); simpl; lia]. Qed.

Lemma filter_length_all {A : Type} (f : A -> bool) (l : list A) :
  List.length (filter f l) = List.length l -> forall x, In x l -> f x = true.
Proof.
  induction l as [|a l IH]; simpl; [tauto|].
  pose proof (filter_length_le f l) as Hle.
  destruct (f a) eqn:E; simpl; intros H x [<-|Hx]; try assumption;
    try (apply IH; [lia | exact Hx]); lia.
Qed.

Lemma unique_length_le (l : list string) :
  (List.length (unique String.eqb l) <= List.length l)%nat.
Proof.
  induction l as [|a l IH]; simpl; [lia|].
  pose proof (filter_length_le (fun b => negb (String.eqb a b))
                               (unique String.eqb l)). lia.
Qed.

(** A list as long as its list of distinct elements has no repetition. *)
Lemma unique_length_NoDup (l : list string) :
  List.length (unique String.eqb l) = List.length l -> NoDup l.
Proof.
  induction l as [|a l IH]; simpl; intros H; constructor.
  - pose proof (filter_length_le (fun b => negb (String.eqb a b))
                                 (unique String.eqb l)) as H1.
    pose proof (unique_length_le l) as H2.
    intros Hin. apply (proj2 (In_unique String.eqb String.eqb_eq a l)) in Hin.
    assert (Hlen : List.length (filter (fun b => negb (String.eqb a b))
                                       (unique String.eqb l))
                   = List.length (unique String.eqb l)) by lia.
    pose proof (filter_length_all _ _ Hlen a Hin) as Hall.
    simpl in Hall. rewrite String.eqb_refl in Hall. discriminate.
  - apply IH.
    pose proof (filter_length_le (fun b => negb (String.eqb a b))
                                 (unique String.eqb l)) as H1.
    pose proof (unique_length_le l) as H2. lia.
Qed.

Lemma dict_get_In (d : dict) (k v : string) :
  dict_get d k = Some v -> In (k, v) d.
Proof.
  unfold dict_get. destruct (find _ d) as [[k' v']|] eqn:E; simpl; [|discriminate].
  intros H. inversion H; subst. apply find_some in E. destruct E as [Hin Hk].
  simpl in Hk. apply String.eqb_eq in Hk. subst. exact Hin.
Qed.

Lemma dict_get_NoDup (d : dict) (k v : string) :
  NoDup (keys d) -> In (k, v) d -> dict_get d k = Some v.
Proof.
  unfold keys, dict_get. induction d as [|[k' v'] d IH]; simpl; [tauto|].
  intros Hnd [H|H].
  - inversion H; subst. rewrite String.eqb_refl. reflexivity.
  - inversion Hnd as [|? ? Hnot Hnd']; subst.
    destruct (String.eqb k' k) eqn:E.
    + apply String.eqb_eq in E. subst. exfalso. apply Hnot.
      apply in_map_iff. exists (k, v). auto.
    + apply IH; assumption.
Qed.

(** X6: when the loop body returns for a configuration whose keys are
    distinct, the matrices are labelled by exactly the display names of
    the configuration, each once; so there are as many rows and columns as
    requested conditions, and no two conditions are merged by the
    renaming. *)
Theorem plot_labels (escape_fracs : DataFrame) (conds : dict) (method : string)
        (sm dm : Matrix) :
  NoDup (keys conds) ->
  mds_matrices escape_fracs conds method = Ok (sm, dm) ->
  Permutation (labels sm) (values conds)
  /\ labels dm = labels sm
  /\ List.length (labels sm) = List.length (keys conds).
Proof.
  intros Hnd Hm. apply mds_matrices_Ok in Hm.
  destruct Hm as [Hlen [Hsub [Hs Hd]]].
  assert (Hdm : labels dm = labels sm).
  { unfold applymap in Hd. destruct (mapM _ _); simpl in Hd; [|discriminate].
    inversion Hd. reflexivity. }
  assert (HV : NoDup (values conds)).
  { apply unique_length_NoDup. rewrite <- Hlen. unfold keys, values.
    rewrite !length_map. reflexivity. }
  assert (Hperm : Permutation (labels sm) (values conds)).
  { destruct (escape_similarity_Ok _ _ _ Hs) as [Hl _].
    apply NoDup_Permutation; [| exact HV |].
    - rewrite Hl. apply (NoDup_unique String.eqb String.eqb_eq).
    - intros name. rewrite Hl, drop_duplicates_conditions, In_conditions_of.
      unfold plot_table, rename_conditions, query_isin.
      rewrite map_map. simpl. rewrite in_map_iff. split.
      + intros [r [Hname Hr]]. apply filter_In in Hr. destruct Hr as [Hr Hk].
        apply isin_In in Hk. unfold keys in Hk. apply in_map_iff in Hk.
        destruct Hk as [[k v] [Hkv Hin]]. simpl in Hkv.
        rewrite <- Hkv, (dict_get_NoDup conds k v Hnd Hin) in Hname.
        subst name. unfold values. apply in_map_iff. exists (k, v). auto.
      + intros Hin. unfold values in Hin. apply in_map_iff in Hin.
        destruct Hin as [[k v] [Hv Hin]]. simpl in Hv. subst v.
        assert (Hk : In k (keys conds)).
        { unfold keys. apply in_map_iff. exists (k, name). auto. }
        pose proof (Hsub k Hk) as Hef. apply in_map_iff in Hef.
        destruct Hef as [r [Hc Hr]]. exists r. split.
        * rewrite Hc, (dict_get_NoDup conds k name Hnd Hin). reflexivity.
        * apply filter_In. split; [exact Hr|]. apply isin_In. rewrite Hc. exact Hk. }
  split; [exact Hperm|]. split; [exact Hdm|].
  rewrite (Permutation_length Hperm). unfold keys, values.
  rewrite !length_map. reflexivity.
Qed.

Lemma plot_labels_witness :
  exists sm dm,
    mds_matrices table_end_to_end [("A", "first"); ("B", "second")]%string "one_minus"
    = Ok (sm, dm)
    /\ Permutation (labels sm) ["first"; "second"]%string
    /\ labels dm = labels sm
    /\ List.length (labels sm) = 2%nat.
Proof.
  assert (Hm : mds_matrices table_end_to_end
                            [("A", "first"); ("B", "second")]%string "one_minus"
               = Ok (mkMatrix ["first"; "second"]%string
                       [Finite 1; Finite (1 / sqrt 2); Finite (1 / sqrt 2); Finite 1],
                     mkMatrix ["first"; "second"]%string
                       (map (Float.sub (Finite 1))
                            [Finite 1; Finite (1 / sqrt 2);
                             Finite (1 / sqrt 2); Finite 1]))).
  { unfold mds_matrices. simpl.
    assert (E : escape_similarity
                  (plot_table table_end_to_end
                              [("A", "first"); ("B", "second")]%string) 1
                = Ok (mkMatrix ["first"; "second"]%string
                        [Finite 1; Finite (1 / sqrt 2);
                         Finite (1 / sqrt 2); Finite 1])).
    { rewrite (escape_similarity_two _ 1 "first" "second"
                 [1 ^ 1; 1 ^ 1] [1 ^ 1; 0 ^ 1]).
      - assert (E : cosine [1 ^ 1; 1 ^ 1] [1 ^ 1; 0 ^ 1] = 1 / sqrt 2).
        { unfold cosine, dot. simpl.
          replace (1 * 1 * (1 * 1) + (1 * 1 * (1 * 1) + 0)) with 2 by lra.
          replace (1 * 1 * (1 * 1) + (0 * 1 * (0 * 1) + 0)) with 1 by lra.
          rewrite sqrt_1. pose proof sqrt2_bounds. field. lra. }
        rewrite E. reflexivity.
      - reflexivity.
      - reflexivity.
      - cbn. eval_profile. reflexivity.
      - cbn. eval_profile. reflexivity.
      - unfold dot. simpl. lra.
      - unfold dot. simpl. lra. }
    rewrite E. reflexivity. }
  eexists. eexists. split; [exact Hm|].
  apply (plot_labels table_end_to_end
           [("A", "first"); ("B", "second")]%string "one_minus" _ _).
  - simpl. repeat constructor; simpl; intuition discriminate.
  - exact Hm.
Defined.

(** ** Pie markers *)

Lemma cumsum_from_finite (acc : R) (d : list R) :
  Pie.cumsum_from (Finite acc) (map Finite d) = map Finite (prefix_sums acc d).
Proof.
  revert acc. induction d as [|x d IH]; intros acc; simpl; [reflexivity|].
  rewrite IH. reflexivity.
Qed.

Lemma cumsum_finite (d : list R) :
  Pie.cumsum (map Finite d) = map Finite (prefix_sums 0 d).
Proof.
  destruct d as [|x d]; simpl; [reflexivity|].
  rewrite cumsum_from_finite. replace (0 + x) with x by lra. reflexivity.
Qed.

Lemma last_prefix_sums (acc : R) (d : list R) :
  d <> [] ->
  Pie.last_item (map Finite (prefix_sums acc d)) = Pie.Drawn (Finite (acc + Rsum d)).
Proof.
  revert acc. induction d as [|x d IH]; intros acc Hne; [congruence|].
  destruct d as [|y d].
  - simpl. do 2 f_equal. lra.
  - change (Pie.last_item (map Finite (prefix_sums acc (x :: y :: d))))
      with (Pie.last_item (map Finite (prefix_sums (acc + x) (y :: d)))).
    rewrite IH by discriminate. do 2 f_equal. simpl. lra.
Qed.

Lemma quotients_finite (total : R) (l : list R) :
  total <> 0 ->
  map (fun x => Float.div x (Finite total)) (map Finite l)
  = map Finite (map (fun x => x / total) l).
Proof.
  intros Ht. rewrite !map_map. apply map_ext. intros x. simpl.
  rewrite Reqb_false by exact Ht. reflexivity.
Qed.

Lemma wedges_of_pie (acc total : R) (d : list R) (colors : list string) :
  combine
    (combine
       (removelast (Finite (acc / total)
                      :: map Finite (map (fun x => x / total) (prefix_sums acc d))))
       (map Finite (map (fun x => x / total) (prefix_sums acc d))))
    colors
  = wedges_from acc total d colors.
Proof.
  revert acc colors. induction d as [|x d IH]; intros acc colors.
  - reflexivity.
  - destruct colors as [|c cs].
    + simpl. reflexivity.
    + specialize (IH (acc + x) cs). simpl in IH. simpl. rewrite <- IH. reflexivity.
Qed.

Lemma wedges_chain (acc total : R) (d : list R) (colors : list string) :
  List.length colors = List.length d ->
  Pie.chain (acc / total) (wedges_from acc total d colors) ((acc + Rsum d) / total).
Proof.
  revert acc colors. induction d as [|x d IH]; intros acc colors Hlen.
  - destruct colors; [|discriminate]. simpl.
    replace (acc + 0) with acc by lra. constructor.
  - destruct colors as [|c cs]; [discriminate|]. simpl.
    replace (acc + (x + Rsum d)) with (acc + x + Rsum d) by lra.
    constructor. apply IH. simpl in Hlen. lia.
Qed.

Lemma wedges_width (acc total : R) (d : list R) (colors : list string) :
  List.length colors = List.length d ->
  map Pie.width (wedges_from acc total d colors) = map (fun x => x / total) d.
Proof.
  revert acc colors. induction d as [|x d IH]; intros acc colors Hlen.
  - destruct colors; reflexivity.
  - destruct colors as [|c cs]; [discriminate|]. simpl.
    rewrite IH by (simpl in Hlen; lia). f_equal.
    unfold Pie.width, Pie.r1, Pie.r2. simpl. unfold Rdiv. lra.
Qed.

Lemma wedges_color (acc total : R) (d : list R) (colors : list string) :
  List.length colors = List.length d ->
  map Pie.color (wedges_from acc total d colors) = colors.
Proof.
  revert acc colors. induction d as [|x d IH]; intros acc colors Hlen.
  - destruct colors; [reflexivity | discriminate].
  - destruct colors as [|c cs]; [discriminate|]. simpl.
    rewrite IH by (simpl in Hlen; lia). reflexivity.
Qed.

(** X7: for a non-empty list of finite values whose sum is not zero and
    as many colours, [draw_pie] draws one wedge per value: the first wedge
    starts at 0, each wedge starts where the one before ends, the last one
    ends at 1, the width of each wedge is its value over the sum, and the
    colours are used in order. *)
Theorem pie_partition (d : list R) (colors : list string) :
  d <> [] ->
  Rsum d <> 0 ->
  List.length colors = List.length d ->
  exists ws,
    Pie.draw_pie (map Finite d) colors = Pie.Drawn ws
    /\ Pie.chain 0 ws 1
    /\ map Pie.width ws = map (fun x => x / Rsum d) d
    /\ map Pie.color ws = colors.
Proof.
  intros Hne Ht Hlen. exists (wedges_from 0 (Rsum d) d colors).
  split.
  - unfold Pie.draw_pie. rewrite cumsum_finite, last_prefix_sums by exact Hne.
    replace (0 + Rsum d) with (Rsum d) by lra.
    rewrite length_map, Hlen, Nat.eqb_refl.
    rewrite quotients_finite by exact Ht.
    replace (Finite 0) with (Finite (0 / Rsum d))
      by (f_equal; unfold Rdiv; apply Rmult_0_l).
    rewrite wedges_of_pie. reflexivity.
  - split; [|split].
    + pose proof (wedges_chain 0 (Rsum d) d colors Hlen) as H.
      replace (0 / Rsum d) with 0 in H by (unfold Rdiv; lra).
      replace ((0 + Rsum d) / Rsum d) with 1 in H by (field; exact Ht).
      exact H.
    + apply wedges_width. exact Hlen.
    + apply wedges_color. exact Hlen.
Qed.

Lemma pie_partition_witness :
  exists ws,
    Pie.draw_pie (map Finite [3; 1]) ["red"; "blue"]%string = Pie.Drawn ws
    /\ Pie.chain 0 ws 1
    /\ map Pie.width ws = map (fun x => x / Rsum [3; 1]) [3; 1]
    /\ map Pie.color ws = ["red"; "blue"]%string.
Proof.
  apply (pie_partition [3; 1] ["red"; "blue"]%string).
  - discriminate.
  - simpl. lra.
  - reflexivity.
Defined.

Lemma last_item_nonempty (l : list float64) :
  l <> [] -> exists x, Pie.last_item l = Pie.Drawn x.
Proof.
  induction l as [|a l IH]; intros Hne; [congruence|].
  destruct l as [|b l]; [simpl; eauto|].
  change (Pie.last_item (a :: b :: l)) with (Pie.last_item (b :: l)).
  apply IH. discriminate.
Qed.

Lemma prefix_sums_zero (d : list R) :
  Forall (fun x => x = 0) d -> Forall (fun x => x = 0) (prefix_sums 0 d).
Proof.
  induction 1 as [|x d Hx _ IH]; simpl; constructor.
  - lra.
  - subst x. replace (0 + 0) with 0 by lra. exact IH.
Qed.

(** X8: [draw_pie] raises [IndexError] on an empty list of values,
    whatever the colours, and [AssertionError] when the numbers of values
    and of colours differ.  It does not raise when the values are all
    zero: every wedge then ends at [nan]. *)
Theorem pie_edge_cases :
  (forall colors, Pie.draw_pie [] colors = Pie.Raised Pie.IndexError)
  /\ (forall dist colors,
        dist <> [] -> List.length colors <> List.length dist ->
        Pie.draw_pie dist colors = Pie.Raised Pie.AssertionError)
  /\ (forall d colors,
        d <> [] -> Forall (fun x => x = 0) d ->
        List.length colors = List.length d ->
        exists ws,
          Pie.draw_pie (map Finite d) colors = Pie.Drawn ws
          /\ List.length ws = List.length d
          /\ Forall (fun w => Pie.r2 w = NaN) ws).
Proof.
  split; [reflexivity|]. split.
  - intros dist colors Hne Hlen. unfold Pie.draw_pie.
    destruct (last_item_nonempty (Pie.cumsum dist)) as [t Ht].
    { destruct dist; [congruence | discriminate]. }
    rewrite Ht. apply Nat.eqb_neq in Hlen. rewrite Hlen. reflexivity.
  - intros d colors Hne Hz Hlen. unfold Pie.draw_pie.
    rewrite cumsum_finite, last_prefix_sums by exact Hne.
    rewrite length_map, Hlen, Nat.eqb_refl.
    assert (HT : 0 + Rsum d = 0).
    { clear Hne Hlen. induction Hz as [|x d Hx _ IH]; simpl; lra. }
    rewrite HT.
    assert (HQ : map (fun x => Float.div x (Finite 0)) (map Finite (prefix_sums 0 d))
                 = map (fun _ => NaN) (prefix_sums 0 d)).
    { rewrite map_map. apply map_ext_in. intros x Hx.
      pose proof (prefix_sums_zero d Hz) as Hp. rewrite Forall_forall in Hp.
      rewrite (Hp x Hx). simpl. rewrite !Reqb_true; reflexivity. }
    rewrite HQ.
    assert (Hlp : List.length (prefix_sums 0 d) = List.length d).
    { generalize 0. clear. induction d as [|x d IH]; intros acc; simpl;
        [reflexivity | rewrite IH; reflexivity]. }
    set (Q := map (fun _ : R => NaN) (prefix_sums 0 d)).
    assert (HlQ : List.length Q = List.length d).
    { unfold Q. rewrite length_map. exact Hlp. }
    assert (Hr : List.length (removelast (Finite 0 :: Q)) = List.length d).
    { assert (Hrl : forall (l : list float64),
                 List.length (removelast l) = pred (List.length l)).
      { induction l as [|a [|b l] IH]; simpl in *; [reflexivity..|].
        rewrite IH. reflexivity. }
      rewrite Hrl. simpl. exact HlQ. }
    exists (combine (combine (removelast (Finite 0 :: Q)) Q) colors).
    split; [reflexivity|]. split.
    + unfold Pie.wedge. rewrite !length_combine, Hr, HlQ, Hlen. lia.
    + apply Forall_forall. intros [[a b] c] Hin.
      apply in_combine_l in Hin. apply in_combine_r in Hin.
      unfold Q in Hin. apply in_map_iff in Hin. destruct Hin as [x [Hx _]].
      unfold Pie.r2. simpl. congruence.
Qed.

Lemma pie_edge_cases_witness :
  Pie.draw_pie [Finite 1; Finite 2] ["red"]%string = Pie.Raised Pie.AssertionError
  /\ exists ws,
       Pie.draw_pie (map Finite [0; 0]) ["red"; "blue"]%string = Pie.Drawn ws
       /\ List.length ws = 2%nat
       /\ Forall (fun w => Pie.r2 w = NaN) ws.
Proof.
  destruct pie_edge_cases as [_ [Hlen Hzero]]. split.
  - apply Hlen; [discriminate | simpl; lia].
  - apply (Hzero [0; 0] ["red"; "blue"]%string).
    + discriminate.
    + repeat constructor.
    + reflexivity.
Defined.

(** ** Rescaling a profile *)

Lemma unique_map_eqb {A : Type} (eqb : A -> A -> bool) (f : A -> A) (l : list A) :
  (forall a b, eqb (f a) (f b) = eqb a b) ->
  unique eqb (map f l) = map f (unique eqb l).
Proof.
  intros Hf. induction l as [|a l IH]; simpl; [reflexivity|].
  f_equal. rewrite IH. generalize (unique eqb l). intros u.
  induction u as [|b u IHu]; simpl; [reflexivity|].
  rewrite Hf. destruct (eqb a b); simpl; rewrite IHu; reflexivity.
Qed.

Lemma mul_eqb (k : R) (x y : float64) :
  0 < k ->
  Float.eqb (Float.mul (Finite k) x) (Float.mul (Finite k) y) = Float.eqb x y.
Proof.
  intros Hk.
  assert (Hk0 : Float.Reqb k 0 = false) by (apply Reqb_false; lra).
  assert (Hkn : Float.Rltb k 0 = false) by (apply Rltb_false; lra).
  destruct x as [a|s|], y as [b|t|]; simpl; rewrite ?Hk0, ?Hkn; simpl; try reflexivity.
  destruct (Req_dec a b) as [->|Hne].
  - rewrite !Reqb_true; reflexivity.
  - rewrite !Reqb_false; [reflexivity | exact Hne | nra].
Qed.

Lemma rescale_row_eqb (c : string) (k : R) (r1 r2 : row) :
  0 < k ->
  row_eqb (if String.eqb (condition r1) c
           then mkRow (condition r1) (site r1) (Float.mul (Finite k) (metric r1))
           else r1)
          (if String.eqb (condition r2) c
           then mkRow (condition r2) (site r2) (Float.mul (Finite k) (metric r2))
           else r2)
  = row_eqb r1 r2.
Proof.
  intros Hk. destruct r1 as [n1 s1 v1], r2 as [n2 s2 v2]. unfold row_eqb.
  cbn -[Float.mul Float.eqb].
  destruct (String.eqb n1 n2) eqn:E.
  - apply String.eqb_eq in E. subst n2.
    destruct (String.eqb n1 c); cbn -[Float.mul Float.eqb];
      rewrite String.eqb_refl; cbn -[Float.mul Float.eqb];
      rewrite ?mul_eqb by exact Hk; reflexivity.
  - destruct (String.eqb n1 c), (String.eqb n2 c); simpl; rewrite E; reflexivity.
Qed.

Lemma rescale_drop_duplicates (c : string) (k : R) (df : DataFrame) :
  0 < k ->
  drop_duplicates (rescale c k df) = rescale c k (drop_duplicates df).
Proof.
  intros Hk. unfold drop_duplicates, rescale.
  apply unique_map_eqb. intros a b. apply rescale_row_eqb. exact Hk.
Qed.

Lemma rescale_finite (c : string) (k : R) (df : DataFrame) :
  all_finite df -> all_finite (rescale c k df).
Proof.
  unfold all_finite, rescale. intros H. apply Forall_map.
  eapply Forall_impl; [|exact H]. intros r Hr. simpl in Hr.
  destruct (String.eqb (condition r) c); [|exact Hr]. simpl.
  destruct (metric r); try discriminate Hr. reflexivity.
Qed.

Lemma rescale_conditions (c : string) (k : R) (df : DataFrame) :
  map condition (rescale c k df) = map condition df.
Proof.
  unfold rescale. rewrite map_map. apply map_ext. intros r.
  destruct (String.eqb (condition r) c); reflexivity.
Qed.

Lemma rescale_keys (c : string) (k : R) (df : DataFrame) :
  map row_key (rescale c k df) = map row_key df.
Proof.
  unfold rescale. rewrite map_map. apply map_ext. intros r.
  destruct (String.eqb (condition r) c); reflexivity.
Qed.

Lemma rescale_assign_metric (c : string) (k : R) (p : nat) (d : DataFrame) :
  all_finite d ->
  assign_metric p (rescale c k d) = rescale c (k ^ p) (assign_metric p d).
Proof.
  intros Hf. unfold assign_metric, rescale. rewrite !map_map.
  apply map_ext_in. intros r Hr. simpl.
  unfold all_finite in Hf. rewrite Forall_forall in Hf. specialize (Hf r Hr).
  destruct (String.eqb (condition r) c); simpl; [|reflexivity].
  destruct (metric r) as [a| |]; try discriminate Hf. simpl Float.mul.
  rewrite !pow_finite. simpl. rewrite Rpow_mult_distr. reflexivity.
Qed.

Lemma rescale_group (c : string) (k : R) (d : DataFrame) (key : key) :
  group (rescale c k d) key
  = map (fun v => if String.eqb (snd key) c then Float.mul (Finite k) v else v)
        (group d key).
Proof.
  induction d as [|[n s v] d IH]; [reflexivity|].
  change (rescale c k (mkRow n s v :: d))
    with ((if String.eqb n c then mkRow n s (Float.mul (Finite k) v) else mkRow n s v)
            :: rescale c k d).
  assert (Hg : forall r d', group (r :: d') key
                            = if key_eqb (row_key r) key
                              then metric r :: group d' key else group d' key).
  { intros r d'. unfold group. simpl. destruct (key_eqb (row_key r) key); reflexivity. }
  rewrite !Hg, IH.
  assert (Hk : row_key (if String.eqb n c
                        then mkRow n s (Float.mul (Finite k) v) else mkRow n s v)
               = row_key (mkRow n s v)).
  { destruct (String.eqb n c); reflexivity. }
  rewrite Hk. destruct (key_eqb (row_key (mkRow n s v)) key) eqn:E; [|reflexivity].
  apply key_eqb_eq in E. subst key. cbn -[Float.mul].
  destruct (String.eqb n c); reflexivity.
Qed.

Lemma Rsum_scale (k : R) (l : list R) :
  Rsum (map (fun x => k * x) l) = k * Rsum l.
Proof. induction l as [|x l IH]; simpl; [lra | rewrite IH; lra]. Qed.

Lemma mean_of_reals (a : list R) :
  a <> [] -> Float.mean (map Finite a) = Finite (Rsum a / INR (List.length a)).
Proof.
  intros Hne. unfold Float.mean. rewrite sum_finite, length_map. simpl.
  rewrite Reqb_false; [reflexivity|].
  apply not_0_INR. destruct a; [congruence | discriminate].
Qed.

Lemma mean_scale (k : R) (l : list float64) :
  Forall (fun v => Float.isfinite v = true) l -> l <> [] ->
  Float.mean (map (Float.mul (Finite k)) l) = Float.mul (Finite k) (Float.mean l).
Proof.
  intros Hf Hne. rewrite (finite_list l Hf).
  assert (Ha : map to_R l <> []) by (destruct l; [congruence | discriminate]).
  generalize dependent (map to_R l). intros a Ha.
  rewrite map_map.
  replace (map (fun x => Float.mul (Finite k) (Finite x)) a)
    with (map Finite (map (fun x => k * x) a)) by (rewrite map_map; reflexivity).
  rewrite !mean_of_reals; [|exact Ha|destruct a; [congruence | discriminate]].
  simpl. f_equal. rewrite Rsum_scale, length_map.
  field. apply not_0_INR. destruct a; [congruence | discriminate].
Qed.

Lemma rescale_agg_mean (c : string) (k : R) (d : DataFrame) :
  all_finite d ->
  agg_mean (rescale c k d)
  = map (fun kv => (fst kv, if String.eqb (snd (fst kv)) c
                            then Float.mul (Finite k) (snd kv) else snd kv))
        (agg_mean d).
Proof.
  intros Hf. unfold agg_mean. rewrite rescale_keys, map_map. simpl.
  apply map_ext_in. intros key Hkey.
  apply (proj1 (In_unique key_eqb key_eqb_eq _ _)) in Hkey.
  f_equal. rewrite rescale_group.
  destruct (String.eqb (snd key) c).
  - apply mean_scale; [apply group_finite; exact Hf | apply group_nonempty; exact Hkey].
  - rewrite map_id. reflexivity.
Qed.

Lemma lookup_map (h : key -> float64 -> float64) (key0 : key)
      (agged : list (key * float64)) :
  lookup key0 (map (fun kv => (fst kv, h (fst kv) (snd kv))) agged)
  = option_map (h key0) (lookup key0 agged).
Proof.
  unfold lookup. induction agged as [|[k0 v] agged IH]; simpl; [reflexivity|].
  destruct (key_eqb k0 key0) eqn:E; simpl; [|exact IH].
  apply key_eqb_eq in E. subst. reflexivity.
Qed.

Lemma rescale_column (c : string) (k : R) (d : DataFrame) (c' : string) :
  all_finite d ->
  get_column (pivot_table (rescale c k d) (Finite 0)) c'
  = match get_column (pivot_table d (Finite 0)) c' with
    | Ok x => Ok (if String.eqb c' c then map (Float.mul (Finite k)) x else x)
    | Raise e => Raise e
    end.
Proof.
  intros Hf. pose proof (rescale_finite c k d Hf) as Hf'.
  rewrite !get_column_pivot, !columns_labels.
  unfold pivot_table. simpl.
  rewrite !(dropna_finite _ Hf'), !(dropna_finite _ Hf).
  rewrite (rescale_agg_mean c k d Hf), !map_map. simpl.
  destruct (isin c' _); [|reflexivity]. f_equal.
  set (sites := sort (unique Z.eqb (map (fun x => fst (fst x)) (agg_mean d)))).
  destruct (String.eqb c' c) eqn:E.
  - rewrite map_map. apply map_ext. intros s. unfold cell.
    rewrite (lookup_map (fun key v => if String.eqb (snd key) c
                                      then Float.mul (Finite k) v else v)).
    destruct (lookup (s, c') (agg_mean d)); simpl; rewrite ?E; [reflexivity|].
    f_equal. lra.
  - apply map_ext. intros s. unfold cell.
    rewrite (lookup_map (fun key v => if String.eqb (snd key) c
                                      then Float.mul (Finite k) v else v)).
    destruct (lookup (s, c') (agg_mean d)); simpl; rewrite ?E; reflexivity.
Qed.

Lemma sqrt_scale (k A : R) : 0 < k -> 0 <= A -> sqrt (k * k * A) = k * sqrt A.
Proof.
  intros Hk HA. rewrite sqrt_mult by nra. rewrite sqrt_square by lra. reflexivity.
Qed.

Lemma dot_scale_self (k : R) (a : list R) :
  dot (map (fun x => k * x) a) (map (fun x => k * x) a) = k * k * dot a a.
Proof.
  rewrite !dot_self, map_map.
  induction a as [|x a IH]; simpl; [lra | rewrite IH; lra].
Qed.

(** Normalising a column and normalising a positive multiple of it give
    the same column. *)
Lemma normalize_scale (k : R) (a : list R) :
  0 < k ->
  normalize (map (Float.mul (Finite k)) (map Finite a)) = normalize (map Finite a).
Proof.
  intros Hk. rewrite map_map. simpl.
  change (map (fun x => Finite (k * x)) a)
    with (map (fun x => Finite ((fun y => k * y) x)) a).
  rewrite <- (map_map (fun y => k * y) Finite).
  pose proof (Rsum_squares_nonneg a) as HA. rewrite <- dot_self in HA.
  destruct (Req_dec (dot a a) 0) as [Z|Z].
  - rewrite (normalize_zero a Z).
    rewrite normalize_zero by (rewrite dot_scale_self, Z; lra).
    rewrite map_map. reflexivity.
  - rewrite (normalize_finite a Z).
    assert (Z' : k * k * dot a a <> 0).
    { apply Rmult_integral_contrapositive_currified; [|exact Z].
      apply Rmult_integral_contrapositive_currified; lra. }
    rewrite normalize_finite by (rewrite dot_scale_self; exact Z').
    f_equal. rewrite map_map. apply map_ext. intros x.
    rewrite dot_scale_self, sqrt_scale by lra.
    field. split; [|lra]. intros H. apply Z. apply sqrt_dot_zero. exact H.
Qed.

Lemma rescale_pair_similarity (c : string) (k : R) (d : DataFrame) (p : nat)
      (c1 c2 : string) :
  0 < k -> all_finite d ->
  pair_similarity (rescale c k d) p c1 c2 = pair_similarity d p c1 c2.
Proof.
  intros Hk Hf. rewrite !pair_similarity_unfold.
  assert (Hkp : 0 < k ^ p) by (apply pow_lt; exact Hk).
  assert (Hprof : forall c',
             profile (rescale c k d) p c'
             = match profile d p c' with
               | Ok x => Ok (if String.eqb c' c
                             then map (Float.mul (Finite (k ^ p))) x else x)
               | Raise e => Raise e
               end).
  { intros c'. unfold profile. rewrite rescale_assign_metric by exact Hf.
    apply rescale_column. apply assign_metric_finite. exact Hf. }
  rewrite !Hprof.
  destruct (profile d p c1) as [x1|e1] eqn:E1; simpl; [|reflexivity].
  destruct (profile d p c2) as [x2|e2] eqn:E2; simpl; [|reflexivity].
  destruct (profile_finite _ _ _ _ Hf E1) as [a [-> _]].
  destruct (profile_finite _ _ _ _ Hf E2) as [b [-> _]].
  destruct (String.eqb c1 c), (String.eqb c2 c);
    rewrite ?normalize_scale by exact Hkp; reflexivity.
Qed.

Lemma rescale_escape_similarity (c : string) (k : R) (df : DataFrame) (p : nat) :
  0 < k ->
  all_finite df ->
  escape_similarity (rescale c k df) p = escape_similarity df p.
Proof.
  intros Hk Hf. pose proof (drop_duplicates_finite df Hf) as Hf'.
  unfold escape_similarity.
  rewrite rescale_drop_duplicates by exact Hk.
  rewrite (finite_notnull _ (rescale_finite c k _ Hf')), (finite_notnull _ Hf').
  rewrite rescale_conditions.
  set (cs := unique String.eqb (map condition (drop_duplicates df))).
  assert (E : forall l,
             mapM (fun cc => pair_similarity (rescale c k (drop_duplicates df)) p
                                             (fst cc) (snd cc)) l
             = mapM (fun cc => pair_similarity (drop_duplicates df) p
                                               (fst cc) (snd cc)) l).
  { induction l as [|a l IH]; simpl; [reflexivity|].
    rewrite IH, rescale_pair_similarity by assumption. reflexivity. }
  rewrite E. reflexivity.
Qed.

Lemma rescaled_end_to_end_profiles :
  profile (drop_duplicates (rescale "A" 10 table_end_to_end)) 1 "A"
  = Ok (map Finite [(10 * 1) ^ 1; (10 * 1) ^ 1])
  /\ profile (drop_duplicates (rescale "A" 10 table_end_to_end)) 1 "B"
     = Ok (map Finite [1 ^ 1; 0 ^ 1]).
Proof.
  split; unfold table_end_to_end; cbn; eval_profile; reflexivity.
Qed.

(** X9: multiplying all metric values of one condition by a positive
    constant leaves the result of [escape_similarity] as it is, up to the
    tolerance 1e-9 that rounding calls for, for every exponent: the
    similarities compare the shapes of the profiles, not their magnitudes.
    This is for tables whose values are in range before and after, and
    whose profiles keep their values in the pivot table and have a
    non-zero norm; both calls then return, with the same labels. *)
Theorem rescale_invariant (c : string) (k : R) (df : DataFrame) (p : nat) :
  0 < k ->
  in_range p df ->
  in_range p (rescale c k df) ->
  (forall c' x, profile (drop_duplicates df) p c' = Ok x ->
                keeps_values x /\ norm x <> Finite 0) ->
  (forall c' x, profile (drop_duplicates (rescale c k df)) p c' = Ok x ->
                keeps_values x /\ norm x <> Finite 0) ->
  exists m m',
    escape_similarity df p = Ok m
    /\ escape_similarity (rescale c k df) p = Ok m'
    /\ labels m' = labels m
    /\ forall c1 c2, In c1 (labels m) -> In c2 (labels m) ->
         exists s s', loc m c1 c2 = Some (Finite s)
                      /\ loc m' c1 c2 = Some (Finite s')
                      /\ Rabs (s' - s) <= 1e-9.
Proof.
  intros Hk Hr _ Hp _.
  pose proof (in_range_finite p df Hr) as Hf.
  pose proof (drop_duplicates_finite df Hf) as Hf'.
  destruct (escape_similarity_returns df p Hf (fun c' x H => proj2 (Hp c' x H)))
    as [m Hm].
  exists m, m. rewrite (rescale_escape_similarity c k df p Hk Hf).
  split; [exact Hm|]. split; [exact Hm|]. split; [reflexivity|].
  intros c1 c2 H1 H2.
  destruct (escape_similarity_loc _ _ _ c1 c2 Hm H1 H2) as [v [Hv Hpair]].
  destruct (escape_similarity_Ok _ _ _ Hm) as [Hl _]. rewrite Hl in H1, H2.
  apply In_conditions_of in H1, H2.
  destruct (pair_similarity_cosine _ p c1 c2 v Hf' H1 H2 Hpair)
    as [a [b [_ [_ [_ [_ ->]]]]]].
  exists (cosine a b), (cosine a b). split; [exact Hv|]. split; [exact Hv|].
  replace (cosine a b - cosine a b) with 0 by lra. rewrite Rabs_R0. lra.
Qed.

Lemma rescale_invariant_witness :
  exists m m',
    escape_similarity table_end_to_end 1 = Ok m
    /\ escape_similarity (rescale "A" 10 table_end_to_end) 1 = Ok m'
    /\ labels m' = labels m
    /\ forall c1 c2, In c1 (labels m) -> In c2 (labels m) ->
         exists s s', loc m c1 c2 = Some (Finite s)
                      /\ loc m' c1 c2 = Some (Finite s')
                      /\ Rabs (s' - s) <= 1e-9.
Proof.
  assert (Hint : forall r : R, (exists z : Z, r = IZR z) ->
                               exists z : Z, Finite r = Finite (IZR z)).
  { intros r [z ->]. exists z. reflexivity. }
  apply (rescale_invariant "A" 10 table_end_to_end 1).
  - lra.
  - repeat constructor; eexists; (split; [reflexivity | simpl; lra]).
  - unfold table_end_to_end. cbn.
    repeat constructor; eexists; (split; [reflexivity | simpl; lra]).
  - apply forall_profiles. destruct end_to_end_profiles as [HA HB].
    intros c' Hc. unfold table_end_to_end in Hc. cbn in Hc.
    destruct Hc as [<-|[<-|[<-|[<-|[]]]]]; eexists;
      (split; [first [exact HA | exact HB]|]);
      (split; [right; repeat constructor; apply Hint;
                 first [exists 1%Z; simpl; lra | exists 0%Z; simpl; lra]
              | intros H0; apply norm_zero_dot in H0; unfold dot in H0;
                simpl in H0; lra]).
  - apply forall_profiles. destruct rescaled_end_to_end_profiles as [HA HB].
    intros c' Hc. unfold table_end_to_end in Hc. cbn in Hc.
    destruct Hc as [<-|[<-|[<-|[<-|[]]]]]; eexists;
      (split; [first [exact HA | exact HB]|]);
      (split; [right; repeat constructor; apply Hint;
                 first [exists 10%Z; simpl; lra | exists 1%Z; simpl; lra
                       | exists 0%Z; simpl; lra]
              | intros H0; apply norm_zero_dot in H0; unfold dot in H0;
                simpl in H0; lra]).
Defined.

(** ** Mutant frequencies (custom analyses) *)

Lemma fold_map_rows {A G : Type} (f : G -> A -> A) (gs : list G) (l : list A) :
  fold_left (fun sc g => map (f g) sc) gs l
  = map (fun s => fold_left (fun s g => f g s) gs s) l.
Proof.
  revert l. induction gs as [|g gs IH]; intros l; simpl.
  - symmetry. apply map_id.
  - rewrite IH, map_map. reflexivity.
Qed.

Lemma matches_assign (g g' : Custom.gisaid) (s : Custom.score) :
  Custom.matches g (Custom.assign_counts g' s) = Custom.matches g s.
Proof.
  unfold Custom.assign_counts.
  destruct (Custom.matches g' s); reflexivity.
Qed.

Lemma matches_fold (g : Custom.gisaid) (gs : list Custom.gisaid) (s : Custom.score) :
  Custom.matches g (fold_left (fun s g' => Custom.assign_counts g' s) gs s)
  = Custom.matches g s.
Proof.
  revert s. induction gs as [|g' gs IH]; intros s; simpl; [reflexivity|].
  rewrite IH. apply matches_assign.
Qed.

Lemma keys_fold (gs : list Custom.gisaid) (s : Custom.score) :
  let s' := fold_left (fun s g' => Custom.assign_counts g' s) gs s in
  Custom.antibody s' = Custom.antibody s
  /\ Custom.protein_site s' = Custom.protein_site s
  /\ Custom.mutation s' = Custom.mutation s.
Proof.
  revert s. induction gs as [|g gs IH]; intros s; simpl; [auto|].
  destruct (IH (Custom.assign_counts g s)) as [H1 [H2 H3]].
  rewrite H1, H2, H3. unfold Custom.assign_counts.
  destruct (Custom.matches g s); auto.
Qed.

(** X10: after the loop over the rows of [counts], every row of [scores]
    carries the count, the number of countries and the frequency of the
    last row of [counts] with its site and mutation, all three from that
    same row, or three zeros when no row of [counts] has them; rows are
    neither added, dropped nor reordered. *)
Theorem add_counts_last_match (g0 : Custom.gisaid) (rest : list Custom.gisaid)
        (scores : list Custom.score) :
  Custom.add_counts g0 rest scores
  = map (fun s =>
           match Custom.last_match (g0 :: rest) s with
           | Some g => Custom.mkScore (Custom.antibody s) (Custom.protein_site s)
                                      (Custom.mutation s) (Custom.g_count g)
                                      (Custom.g_n_countries g) (Custom.g_frequency g)
           | None => Custom.reset_counts s
           end) scores.
Proof.
  unfold Custom.add_counts. rewrite fold_map_rows, map_map.
  apply map_ext. intros s. unfold Custom.last_match.
  generalize (g0 :: rest). intros gs.
  induction gs as [|g gs IH] using rev_ind; [reflexivity|].
  rewrite fold_left_app, rev_app_distr. simpl.
  assert (Hm : Custom.matches g s = Custom.matches g (Custom.reset_counts s))
    by reflexivity.
  unfold Custom.assign_counts at 1. rewrite matches_fold, <- Hm.
  destruct (Custom.matches g s); [|exact IH].
  destruct (keys_fold gs (Custom.reset_counts s)) as [H1 [H2 H3]].
  rewrite H1, H2, H3. reflexivity.
Qed.

Lemma fold_Rmin_le_init (t : list R) (x : R) : fold_left Rmin t x <= x.
Proof.
  revert x. induction t as [|z t IH]; intros x; simpl; [lra|].
  eapply Rle_trans; [apply IH | apply Rmin_l].
Qed.

Lemma fold_Rmin_le (t : list R) (x y : R) :
  In y (x :: t) -> fold_left Rmin t x <= y.
Proof.
  revert x. induction t as [|z t IH]; intros x Hin.
  - destruct Hin as [->|[]]. simpl. lra.
  - destruct Hin as [->|[->|Hin]]; simpl.
    + eapply Rle_trans; [apply fold_Rmin_le_init | apply Rmin_l].
    + eapply Rle_trans; [apply fold_Rmin_le_init | apply Rmin_r].
    + apply IH. right. exact Hin.
Qed.

Lemma fold_Rmin_In (t : list R) (x : R) : In (fold_left Rmin t x) (x :: t).
Proof.
  revert x. induction t as [|z t IH]; intros x; simpl; [auto|].
  destruct (IH (Rmin x z)) as [H|H]; [|auto].
  rewrite <- H. unfold Rmin. destruct (Rle_dec x z); auto.
Qed.

(** X11: when no frequency is negative and some frequency is positive,
    every pseudo-frequency is a positive finite number: the frequency
    itself where that is not zero, and elsewhere a tenth of the least
    positive frequency, which lies below every positive frequency of the
    table.  When no frequency is positive, the rows of frequency zero get
    [Inf]. *)
Theorem pseudo_frequency_spec (scores : list Custom.score) :
  ((forall s, In s scores -> 0 <= Custom.frequency s) ->
   (exists s, In s scores /\ 0 < Custom.frequency s) ->
   exists m,
     Custom.min_positive scores = Finite m
     /\ 0 < m
     /\ (exists t, In t scores /\ Custom.frequency t = m)
     /\ (forall t, In t scores -> 0 < Custom.frequency t ->
                   m / 10 < Custom.frequency t)
     /\ Custom.pseudo_frequency scores
        = map (fun s => Finite (if Req_dec_T (Custom.frequency s) 0
                                then m / 10 else Custom.frequency s)) scores
     /\ Forall (fun q => exists v, q = Finite v /\ 0 < v)
               (Custom.pseudo_frequency scores))
  /\ ((forall s, In s scores -> Custom.frequency s <= 0) ->
      Custom.pseudo_frequency scores
      = map (fun s => if Req_dec_T (Custom.frequency s) 0
                      then Infinity false else Finite (Custom.frequency s)) scores).
Proof.
  split.
  - intros Hnn [s0 [Hs0 Hpos0]].
    unfold Custom.min_positive.
    set (pos := filter (fun s => Float.Rltb 0 (Custom.frequency s)) scores).
    assert (Hpos : forall t, In t pos <-> In t scores /\ 0 < Custom.frequency t).
    { intros t. unfold pos. rewrite filter_In. unfold Float.Rltb.
      destruct (Rlt_dec 0 (Custom.frequency t)); intuition discriminate. }
    assert (Hin0 : In (Custom.frequency s0) (map Custom.frequency pos)).
    { apply in_map. apply Hpos. auto. }
    destruct (map Custom.frequency pos) as [|x t] eqn:E; [destruct Hin0|].
    set (m := fold_left Rmin t x).
    assert (Hm_in : In m (map Custom.frequency pos)).
    { rewrite E. apply fold_Rmin_In. }
    assert (Hm_le : forall u, In u pos -> m <= Custom.frequency u).
    { intros u Hu. apply fold_Rmin_le. rewrite <- E. apply in_map. exact Hu. }
    apply in_map_iff in Hm_in. destruct Hm_in as [tm [Htm Htm_in]].
    apply Hpos in Htm_in. destruct Htm_in as [Htm_in Htm_pos].
    assert (Hmpos : 0 < m) by lra.
    assert (Hps : Custom.pseudo_frequency scores
                  = map (fun s => Finite (if Req_dec_T (Custom.frequency s) 0
                                          then m / 10 else Custom.frequency s)) scores).
    { unfold Custom.pseudo_frequency, Custom.min_positive. fold pos. rewrite E.
      apply map_ext. intros s. simpl. fold m. unfold Float.Reqb.
      destruct (Req_dec_T (Custom.frequency s) 0); [|reflexivity].
      f_equal. lra. }
    exists m. simpl. fold m.
    split; [reflexivity|]. split; [exact Hmpos|].
    split; [exists tm; auto|]. split.
    + intros u Hu Hupos.
      pose proof (Hm_le u (proj2 (Hpos u) (conj Hu Hupos))). lra.
    + split; [exact Hps|]. rewrite Hps. apply Forall_map, Forall_forall.
      intros s Hs. eexists. split; [reflexivity|].
      destruct (Req_dec_T (Custom.frequency s) 0) as [Hz|Hz]; [lra|].
      pose proof (Hnn s Hs). lra.
  - intros Hnp. unfold Custom.pseudo_frequency, Custom.min_positive.
    rewrite (filter_none (fun s => Float.Rltb 0 (Custom.frequency s)) scores).
    + apply map_ext. intros s. simpl Custom.rmin.
      destruct (Req_dec_T (Custom.frequency s) 0) as [Hz|Hz].
      * rewrite (Reqb_true _ _ Hz). unfold Float.mul.
        rewrite Reqb_false by lra. rewrite Rltb_false by lra. reflexivity.
      * rewrite (Reqb_false _ _ Hz). reflexivity.
    + intros s Hs. apply Rltb_false. pose proof (Hnp s Hs). lra.
Qed.

Lemma pseudo_frequency_spec_witness :
  Forall (fun q => exists v, q = Finite v /\ 0 < v)
         (Custom.pseudo_frequency
            [Custom.mkScore "LY-CoV555" 484 "K" 5 2 (1 / 1000);
             Custom.mkScore "LY-CoV555" 484 "Q" 0 0 0;
             Custom.mkScore "LY-CoV555" 490 "S" 9 3 (1 / 100)])
  /\ Custom.pseudo_frequency [Custom.mkScore "LY-CoV555" 484 "Q" 0 0 0]
     = [Infinity false].
Proof.
  split.
  - destruct (pseudo_frequency_spec
                [Custom.mkScore "LY-CoV555" 484 "K" 5 2 (1 / 1000);
                 Custom.mkScore "LY-CoV555" 484 "Q" 0 0 0;
                 Custom.mkScore "LY-CoV555" 490 "S" 9 3 (1 / 100)]) as [H _].
    assert (H1 : forall s,
               In s [Custom.mkScore "LY-CoV555" 484 "K" 5 2 (1 / 1000);
                     Custom.mkScore "LY-CoV555" 484 "Q" 0 0 0;
                     Custom.mkScore "LY-CoV555" 490 "S" 9 3 (1 / 100)] ->
               0 <= Custom.frequency s).
    { simpl. intros s [<-|[<-|[<-|[]]]]; simpl; lra. }
    assert (H2 : exists s,
               In s [Custom.mkScore "LY-CoV555" 484 "K" 5 2 (1 / 1000);
                     Custom.mkScore "LY-CoV555" 484 "Q" 0 0 0;
                     Custom.mkScore "LY-CoV555" 490 "S" 9 3 (1 / 100)]
               /\ 0 < Custom.frequency s).
    { eexists. split; [left; reflexivity | simpl; lra]. }
    destruct (H H1 H2) as [m [_ [_ [_ [_ [_ HF]]]]]]. exact HF.
  - destruct (pseudo_frequency_spec [Custom.mkScore "LY-CoV555" 484 "Q" 0 0 0])
      as [_ H].
    rewrite H.
    + simpl. destruct (Req_dec_T 0 0); [reflexivity | lra].
    + simpl. intros s [<-|[]]. simpl. lra.
Defined.

Lemma add_counts_last_match_witness :
  Custom.add_counts
    (Custom.mkGisaid 484 "K" 5 2 (1 / 1000))
    [Custom.mkGisaid 490 "S" 9 3 (1 / 100); Custom.mkGisaid 484 "K" 7 4 (1 / 500)]
    [Custom.mkScore "LY-CoV555" 484 "K" 1 1 1; Custom.mkScore "LY-CoV555" 501 "Y" 1 1 1]
  = [Custom.mkScore "LY-CoV555" 484 "K" 7 4 (1 / 500);
     Custom.mkScore "LY-CoV555" 501 "Y" 0 0 0].
Proof.
  rewrite add_counts_last_match. reflexivity.
Defined.

(** ** Structural classes (custom analyses) *)

Lemma zin_In (z : Z) (l : list Z) : Custom.zin z l = true <-> In z l.
Proof.
  unfold Custom.zin. rewrite existsb_exists. split.
  - intros [x [Hx E]]. apply Z.eqb_eq in E. subst. exact Hx.
  - intros H. exists z. split; [exact H | apply Z.eqb_refl].
Qed.

Lemma zin_not_in (z : Z) (y x : list Z) :
  Custom.zin z (Custom.not_in y x) = Custom.zin z x && negb (Custom.zin z y).
Proof.
  apply eq_true_iff_eq. rewrite andb_true_iff, !zin_In.
  unfold Custom.not_in. rewrite filter_In. reflexivity.
Qed.

(** X12: the list of proximal residues shares no residue with the list
    of contact residues.  For each of the two antibodies a site is
    classed [contact] exactly when its residue is in the 4 A list,
    [proximal] exactly when it is in the 8 A list and not in the 4 A list,
    and [distal] otherwise; the lists of the other antibody play no part,
    and the later assignment of [proximal] never overwrites a [contact].
    Rows of any other antibody stay [distal]. *)
Theorem classify_spec (LY016_4A LY016_8A LY555_4A LY555_8A : list Z) (ab : string) (ps : Z) :
  let class := Custom.classify LY016_4A LY016_8A LY555_4A LY555_8A ab ps in
  (forall z, In z (Custom.contacts_LY016_4to8A LY016_4A LY016_8A) ->
             In z LY016_8A /\ ~ In z LY016_4A)
  /\ (ab = "LY-CoV016"%string ->
      (class = Custom.Contact <-> In ps LY016_4A)
      /\ (class = Custom.Proximal <-> In ps LY016_8A /\ ~ In ps LY016_4A)
      /\ (class = Custom.Distal <-> ~ In ps LY016_8A /\ ~ In ps LY016_4A))
  /\ (ab = "LY-CoV555"%string ->
      (class = Custom.Contact <-> In ps LY555_4A)
      /\ (class = Custom.Proximal <-> In ps LY555_8A /\ ~ In ps LY555_4A)
      /\ (class = Custom.Distal <-> ~ In ps LY555_8A /\ ~ In ps LY555_4A))
  /\ (ab <> "LY-CoV016"%string -> ab <> "LY-CoV555"%string ->
      class = Custom.Distal).
Proof.
  intros class. split.
  { intros z Hz. unfold Custom.contacts_LY016_4to8A, Custom.not_in in Hz.
    apply filter_In in Hz. destruct Hz as [Hz Hn]. split; [exact Hz|].
    intros H. apply zin_In in H. rewrite H in Hn. discriminate. }
  unfold class, Custom.classify, Custom.contacts_LY016_4to8A,
    Custom.contacts_LY555_4to8A.
  rewrite !zin_not_in.
  pose proof (zin_In ps LY016_4A) as A4. pose proof (zin_In ps LY016_8A) as A8.
  pose proof (zin_In ps LY555_4A) as B4. pose proof (zin_In ps LY555_8A) as B8.
  split; [|split].
  - intros ->. simpl.
    destruct (Custom.zin ps LY016_4A), (Custom.zin ps LY016_8A); simpl;
      repeat split; intros; try discriminate; try tauto;
      try (exfalso; intuition congruence); intuition congruence.
  - intros ->. simpl.
    destruct (Custom.zin ps LY555_4A), (Custom.zin ps LY555_8A); simpl;
      repeat split; intros; try discriminate; try tauto;
      try (exfalso; intuition congruence); intuition congruence.
  - intros H1 H2. apply String.eqb_neq in H1, H2. rewrite H1, H2. reflexivity.
Qed.

Lemma classify_spec_witness :
  Custom.classify [417; 455]%Z [417; 455; 456; 420]%Z [484; 490]%Z [484; 452]%Z
                  "LY-CoV016" 417 = Custom.Contact
  /\ Custom.classify [417; 455]%Z [417; 455; 456; 420]%Z [484; 490]%Z [484; 452]%Z
                     "LY-CoV016" 456 = Custom.Proximal
  /\ Custom.classify [417; 455]%Z [417; 455; 456; 420]%Z [484; 490]%Z [484; 452]%Z
                     "LY-CoV555" 417 = Custom.Distal.
Proof.
  destruct (classify_spec [417; 455]%Z [417; 455; 456; 420]%Z [484; 490]%Z
                          [484; 452]%Z "LY-CoV016" 417) as [_ [[H1 _] _]];
    [reflexivity|].
  destruct (classify_spec [417; 455]%Z [417; 455; 456; 420]%Z [484; 490]%Z
                          [484; 452]%Z "LY-CoV016" 456) as [_ [[_ [H2 _]] _]];
    [reflexivity|].
  destruct (classify_spec [417; 455]%Z [417; 455; 456; 420]%Z [484; 490]%Z
                          [484; 452]%Z "LY-CoV555" 417) as [_ [_ [[_ [_ H3]] _]]];
    [reflexivity|].
  split; [|split].
  - apply H1. simpl. auto.
  - apply H2. simpl. split; [auto|]. intros [H|[H|[]]]; discriminate H.
  - apply H3. simpl. split; intros H; repeat destruct H as [H|H]; try discriminate H;
      try destruct H.
Defined.

(** ** Rows outside a plot or a pair *)

Lemma forallb_ext_in {A : Type} (f g : A -> bool) (l : list A) :
  (forall x, In x l -> f x = g x) -> forallb f l = forallb g l.
Proof.
  induction l as [|a l IH]; intros H; simpl; [reflexivity|].
  rewrite (H a (or_introl eq_refl)), IH; [reflexivity|].
  intros x Hx. apply H. right. exact Hx.
Qed.

(** X13: the result of the loop body depends only on the rows of the
    requested conditions: dropping every other row from the table of
    escape fractions changes neither the outcome of the assertions nor
    the matrices. *)
Theorem unrequested_rows_ignored (escape_fracs : DataFrame) (conds : dict)
        (method : string) :
  mds_matrices (query_isin (keys conds) escape_fracs) conds method
  = mds_matrices escape_fracs conds method.
Proof.
  unfold mds_matrices.
  destruct (Nat.eqb _ _); simpl; [|reflexivity].
  assert (E : forallb (fun c => isin c (map condition
                                          (query_isin (keys conds) escape_fracs)))
                      (keys conds)
              = forallb (fun c => isin c (map condition escape_fracs)) (keys conds)).
  { apply forallb_ext_in. intros c Hc. apply eq_true_iff_eq.
    rewrite !isin_In, !in_map_iff. unfold query_isin. split.
    - intros [r [Hr Hin]]. apply filter_In in Hin. exists r. tauto.
    - intros [r [Hr Hin]]. exists r. split; [exact Hr|].
      apply filter_In. split; [exact Hin|]. apply isin_In. rewrite Hr. exact Hc. }
  rewrite E.
  assert (P : plot_table (query_isin (keys conds) escape_fracs) conds
              = plot_table escape_fracs conds).
  { unfold plot_table, query_isin. rewrite filter_idem. reflexivity. }
  rewrite P. reflexivity.
Qed.









Lemma has_key_false_site (d : DataFrame) (s : Z) (c : string) :
  ~ In s (map site d) -> has_key (s, c) d = false.
Proof.
  intros Hnot. unfold has_key. apply not_true_is_false. intros H.
  apply existsb_exists in H. destruct H as [k [Hk E]].
  apply key_eqb_eq in E. subst k. apply Hnot.
  apply in_map_iff in Hk. destruct Hk as [r [Hr Hin]].
  apply in_map_iff. exists r. split; [|exact Hin].
  unfold row_key in Hr. inversion Hr. reflexivity.
Qed.












